(** * Contact Recorder mobile client: shallow embedding and verified properties

    The development follows the TypeScript sources of the client:
    - [src/utils/Logger.ts]            -> [Module Logger]
    - [src/services/StorageService.ts] -> [Module StorageService]
                                          and [Module UserStorage]
    - [src/services/AudioService.ts]   -> [Module AudioService]
                                          and [Module AudioFiles]
    - [src/services/ApiService.ts]     -> [Module StoredTokenApi]
    - [services/ApiService.ts] (the retrying upload client, two revisions)
                                       -> [Module ApiService]
    - [src/screens/RecordingScreen.tsx] and
      [src/screens/RecordingsListScreen.tsx]
                                       -> [Module RecordingScreen],
                                          [Module RecordingsListScreen]
    [Module Js], [Module Eff] and [Module Http] hold what they share.

    Asynchronous calls run to completion one after the other (the sources
    [await] them; the two storage writes of [StoredTokenApi] that are not
    awaited only decide what is stored), so each method is a function from
    the replies of the platform and the object's fields to its result and
    the updated fields. *)

From Stdlib Require Import ZArith Lia Bool DecimalString.
From stdpp Require Import base option list strings gmap.

Open Scope string_scope.
Open Scope list_scope.

(** ** JavaScript values shared by the services *)

Module Js.

(** What a [throw] carries. [new Error(m)] is [ErrorObj m]; anything else
    that can be thrown (a string, [undefined], ...) is [NonError]. *)
Inductive Thrown : Type :=
| ErrorObj (message : string)
| NonError (shown : string).

(** [error instanceof Error ? error.message : fallback] *)
Definition messageOr (fallback : string) (e : Thrown) : string :=
  match e with
  | ErrorObj m => m
  | NonError _ => fallback
  end.

(** ['...' + (error as Error).message]: a missing property prints as
    [undefined]. *)
Definition messageText (e : Thrown) : string := messageOr "undefined" e.

(** Completion of an awaited call: a value or a thrown exception. *)
Inductive Outcome (A : Type) : Type :=
| Return (a : A)
| Throw (e : Thrown).
Arguments Return {A} a.
Arguments Throw {A} e.

Definition returned {A} (o : Outcome A) : bool :=
  match o with Return _ => true | Throw _ => false end.

(** Truthiness of an optional string ([undefined], [null] and [''] are
    falsy). *)
Definition truthy (s : option string) : bool :=
  match s with
  | Some s => negb (String.eqb s "")
  | None => false
  end.

(** [Number.prototype.toString] on an integer. *)
Definition showZ (n : Z) : string :=
  match n with
  | Z0 => "0"
  | Zpos p => NilEmpty.string_of_uint (Pos.to_uint p)
  | Zneg p => "-" +:+ NilEmpty.string_of_uint (Pos.to_uint p)
  end.

End Js.

(** ** src/utils/Logger.ts *)

Module Logger.

Inductive Level : Type := INFO | WARN | ERROR.

(** [data] holds the text [JSON.stringify(data, null, 2)] of a truthy
    payload and is [None] ([undefined]) for an absent or falsy one. *)
Record LogEntry : Type := mkLogEntry {
  timestamp : string;
  level : Level;
  message : string;
  data : option string
}.

Record Logger : Type := mkLogger { logs : list LogEntry }.

Definition maxLogs : nat := 100.

(** [new Logger()] *)
Definition create : Logger := {| logs := [] |}.

(** [arr.slice(-n)]: the last [n] elements, the whole array when it is
    shorter; [-0] is [0], so [slice(-0)] copies the array. *)
Definition slice_last {A} (n : nat) (arr : list A) : list A :=
  match n with
  | O => arr
  | S _ => drop (length arr - n)%nat arr
  end.

(** [addLog(level, message, data)]; [now] is [new Date().toISOString()] at
    the time of the call. The console copy of the entry is not modelled. *)
Definition addLog (now : string) (lvl : Level) (msg : string)
    (payload : option string) (lg : Logger) : Logger :=
  let logEntry :=
    {| timestamp := now; level := lvl; message := msg; data := payload |} in
  let pushed := logs lg ++ [logEntry] in
  if (maxLogs <? length pushed)%nat
  then {| logs := slice_last maxLogs pushed |}
  else {| logs := pushed |}.

Definition info := fun now => addLog now INFO.
Definition warn := fun now => addLog now WARN.
Definition error := fun now => addLog now ERROR.

(** [getLogs()] returns a copy of the buffer. *)
Definition getLogs (lg : Logger) : list LogEntry := logs lg.

Definition clearLogs (lg : Logger) : Logger := {| logs := [] |}.

(** The public mutators, as a caller sees them. *)
Inductive Call : Type :=
| CInfo (now msg : string) (payload : option string)
| CWarn (now msg : string) (payload : option string)
| CError (now msg : string) (payload : option string)
| CClearLogs.

Definition step (lg : Logger) (c : Call) : Logger :=
  match c with
  | CInfo now msg payload => info now msg payload lg
  | CWarn now msg payload => warn now msg payload lg
  | CError now msg payload => error now msg payload lg
  | CClearLogs => clearLogs lg
  end.

Definition run (calls : list Call) (lg : Logger) : Logger :=
  foldl step lg calls.

(** The entries appended since the last [clearLogs], oldest first. *)
Definition entryOf (c : Call) : option LogEntry :=
  match c with
  | CInfo now msg payload => Some (mkLogEntry now INFO msg payload)
  | CWarn now msg payload => Some (mkLogEntry now WARN msg payload)
  | CError now msg payload => Some (mkLogEntry now ERROR msg payload)
  | CClearLogs => None
  end.

Definition appended (calls : list Call) : list LogEntry :=
  foldl (fun acc c => match entryOf c with
                      | Some e => acc ++ [e]
                      | None => []
                      end) [] calls.

(** A full buffer: one hundred entries numbered by their message. *)
Definition fullBuffer : Logger :=
  {| logs := (fun i => mkLogEntry "2025-06-12T10:00:00.000Z" INFO
                         (Js.showZ (Z.of_nat i)) None) <$> seq 0 100 |}.

End Logger.

(** ** src/types/index.ts and src/services/StorageService.ts *)

Module StorageService.

(** A timestamp field at run time. The interface declares [Date]; a [Date]
    object is identified with the text its [toISOString()] yields (valid
    dates only: [new Date()] never produces an invalid one). What
    [JSON.parse] puts in the same field is a plain string. *)
Inductive Timestamp : Type :=
| DateObj (iso : string)
| IsoText (text : string).

(** [interface Recording], with the type of the two timestamp fields left
    open: [Timestamp] for objects in memory, [string] inside JSON text.
    Optional fields are [option]s ([None] is [undefined], which
    [JSON.stringify] omits). [duration] is in milliseconds. *)
Record RecordingOf (T : Type) : Type := mkRecording {
  id : string;
  userId : string;
  locationId : string;
  startTime : T;
  endTime : option T;
  audioFilePath : string;
  duration : Z;
  serverId : option Z;
  synced : option bool
}.
Arguments mkRecording {T}.
Arguments id {T}.
Arguments userId {T}.
Arguments locationId {T}.
Arguments startTime {T}.
Arguments endTime {T}.
Arguments audioFilePath {T}.
Arguments duration {T}.
Arguments serverId {T}.
Arguments synced {T}.

Definition Recording : Type := RecordingOf Timestamp.
Definition JsonRecording : Type := RecordingOf string.

Definition mapTime {T U} (f : T -> U) (r : RecordingOf T) : RecordingOf U :=
  {| id := id r; userId := userId r; locationId := locationId r;
     startTime := f (startTime r); endTime := f <$> endTime r;
     audioFilePath := audioFilePath r; duration := duration r;
     serverId := serverId r; synced := synced r |}.

(** [Date.prototype.toJSON] is [toISOString]; a string is written as it
    is. *)
Definition toJSON (t : Timestamp) : string :=
  match t with
  | DateObj iso => iso
  | IsoText text => text
  end.

(** The text held under a key. A text that is the JSON of an array of
    recordings is identified with that array; [Unparseable] is any text
    [JSON.parse] rejects (only this class writes the recordings key, so no
    other JSON shape occurs there). *)
Inductive Text : Type :=
| RecordingsJson (rs : list JsonRecording)
| Unparseable (raw : string).

Definition JSON_stringify (rs : list Recording) : Text :=
  RecordingsJson (mapTime toJSON <$> rs).

(** [JSON.parse] has no reviver: timestamps stay strings. *)
Definition JSON_parse (t : Text) : Js.Outcome (list Recording) :=
  match t with
  | RecordingsJson rs => Js.Return (mapTime IsoText <$> rs)
  | Unparseable _ => Js.Throw (Js.ErrorObj "JSON Parse error")
  end.

(** The empty string is the only falsy text. *)
Definition nonEmpty (t : Text) : bool :=
  match t with
  | RecordingsJson _ => true
  | Unparseable raw => negb (String.eqb raw "")
  end.

(** [AsyncStorage]: the persisted items, and what the platform answers to
    the calls still to come. Every call ([getItem], [setItem]) takes the
    next entry of [rejections]: [true] makes that call reject (storage full
    or unavailable), [false] lets it through; calls made once the list is
    used up go through. Each call is answered on its own: a read may be
    rejected and the write that follows accepted. *)
Record AsyncStorage : Type := mkStore {
  items : gmap string Text;
  rejections : list bool
}.

(** Some call still to come is rejected. *)
Definition failing (st : AsyncStorage) : bool :=
  existsb (fun rejected => rejected) (rejections st).

(** Whether the [n]-th call from now on (counted from 0) is rejected. *)
Definition rejects (n : nat) (st : AsyncStorage) : bool :=
  nth n (rejections st) false.

Definition storageError : Js.Thrown := Js.ErrorObj "AsyncStorage failure".

(** The platform's answer to the next call, and the storage once that call
    is made. *)
Definition answer (st : AsyncStorage) : bool * AsyncStorage :=
  match rejections st with
  | [] => (false, st)
  | rejected :: later =>
      (rejected, {| items := items st; rejections := later |})
  end.

Definition getItem (key : string) (st : AsyncStorage)
    : Js.Outcome (option Text) * AsyncStorage :=
  let '(rejected, st') := answer st in
  if rejected then (Js.Throw storageError, st')
  else (Js.Return (items st' !! key), st').

Definition setItem (key : string) (value : Text) (st : AsyncStorage)
    : Js.Outcome unit * AsyncStorage :=
  let '(rejected, st') := answer st in
  if rejected then (Js.Throw storageError, st')
  else (Js.Return tt, {| items := <[key := value]> (items st');
                         rejections := rejections st' |}).

Definition USER_KEY : string := "user_data".
Definition LOCATION_KEY : string := "selected_location".
Definition RECORDINGS_KEY : string := "recordings".

(** [getRecordings()] with the storage it leaves: every failure is logged
    and answered with [[]]. *)
Definition readRecordings (st : AsyncStorage)
    : list Recording * AsyncStorage :=
  match getItem RECORDINGS_KEY st with
  | (Js.Return (Some recordingsData), st') =>
      (if nonEmpty recordingsData then
         match JSON_parse recordingsData with
         | Js.Return recordings => recordings
         | Js.Throw _ => []
         end
       else [], st')
  | (Js.Return None, st') => ([], st')
  | (Js.Throw _, st') => ([], st')
  end.

(** What [getRecordings()] returns. *)
Definition getRecordings (st : AsyncStorage) : list Recording :=
  (readRecordings st).1.

(** [saveRecording(recording)]: a rejected write is logged and dropped. *)
Definition saveRecording (recording : Recording) (st : AsyncStorage)
    : AsyncStorage :=
  let '(recordings, st1) := readRecordings st in
  let updatedRecordings := recordings ++ [recording] in
  match setItem RECORDINGS_KEY (JSON_stringify updatedRecordings) st1 with
  | (Js.Return _, st2) => st2
  | (Js.Throw _, st2) => st2
  end.

(** [removeRecording(recordingId)] *)
Definition removeRecording (recordingId : string) (st : AsyncStorage)
    : AsyncStorage :=
  let '(recordings, st1) := readRecordings st in
  let filteredRecordings :=
    filter (fun r => id r <> recordingId) recordings in
  match setItem RECORDINGS_KEY (JSON_stringify filteredRecordings) st1 with
  | (Js.Return _, st2) => st2
  | (Js.Throw _, st2) => st2
  end.

(** What a read of the recordings key gives when the platform answers it:
    the parsed list, or [[]] for a missing item, an empty text or a text
    that does not parse. *)
Definition readable (st : AsyncStorage) : list Recording :=
  match items st !! RECORDINGS_KEY with
  | Some recordingsData =>
      if nonEmpty recordingsData then
        match JSON_parse recordingsData with
        | Js.Return recordings => recordings
        | Js.Throw _ => []
        end
      else []
  | None => []
  end.

(** The recordings array written in the store, when there is one. *)
Definition storedRecordings (st : AsyncStorage)
    : option (list JsonRecording) :=
  match items st !! RECORDINGS_KEY with
  | Some (RecordingsJson rs) => Some rs
  | _ => None
  end.

(** What a recording looks like once it went through [JSON.stringify] and
    [JSON.parse]. *)
Definition throughJson (r : Recording) : Recording :=
  mapTime IsoText (mapTime toJSON r).

(** A store that works and holds nothing yet, and a recording as
    [RecordingScreen] builds it when an upload failed. *)
Definition emptyStore : AsyncStorage := {| items := ∅; rejections := [] |}.

Definition sampleRecording : Recording :=
  {| id := "1749657904000"; userId := "1"; locationId := "2";
     startTime := DateObj "2025-06-11T16:05:04.000Z";
     endTime := Some (DateObj "2025-06-11T16:05:08.000Z");
     audioFilePath := "file:///data/recordings/recording_admin.m4a";
     duration := 4000; serverId := None; synced := Some false |}.

(** A storage that holds that recording, answers the next call and rejects
    the one after it: the read of a [removeRecording] goes through, its
    write does not. *)
Definition refusingWrite : AsyncStorage :=
  {| items := {[RECORDINGS_KEY := JSON_stringify [sampleRecording]]};
     rejections := [false; true] |}.

(** The same items behind a storage that rejects the next call and accepts
    the one after it. *)
Definition refusingRead : AsyncStorage :=
  {| items := {[RECORDINGS_KEY := JSON_stringify [sampleRecording]]};
     rejections := [true; false] |}.

End StorageService.

(** ** src/services/AudioService.ts: the recording session *)

Module AudioService.

Inductive PermissionStatus : Type := granted | denied | undetermined.

(** An [Audio.Recording] object: the platform session behind it and what
    its [getURI()] answers. *)
Record Recording : Type := mkHandle {
  session : nat;
  getURI : option string
}.

(** The two private fields of the class. *)
Record AudioService : Type := mkService {
  recording : option Recording;
  isRecording : bool
}.

(** The platform recorder: the sessions created by [createAsync] and not
    yet stopped and unloaded, and the number of sessions created so far. *)
Record Platform : Type := mkPlatform {
  live : list nat;
  created : nat
}.

(** [new AudioService()] on a platform with no session. *)
Definition create : AudioService :=
  {| recording := None; isRecording := false |}.
Definition idle : Platform := {| live := []; created := 0 |}.

(** What the platform answers during one [startRecording] call. *)
Record StartReplies : Type := mkStartReplies {
  permissionReply : Js.Outcome PermissionStatus;
  audioModeReply : Js.Outcome unit;
  createReply : Js.Outcome (option string)
}.

(** [requestPermissions()] *)
Definition requestPermissions (env : StartReplies) : bool :=
  match permissionReply env with
  | Js.Return granted => true
  | Js.Return _ => false
  | Js.Throw _ => false
  end.

(** [Audio.Recording.createAsync(...)] *)
Definition createAsync (env : StartReplies) (pf : Platform)
    : Js.Outcome Recording * Platform :=
  match createReply env with
  | Js.Return uri =>
      (Js.Return {| session := created pf; getURI := uri |},
       {| live := live pf ++ [created pf]; created := S (created pf) |})
  | Js.Throw e => (Js.Throw e, pf)
  end.

(** [startRecording()]: the placeholder ['recording'] or [null]. Every
    exception of the body is caught, logged and answered with [null]. *)
Definition startRecording (env : StartReplies) (svc : AudioService)
    (pf : Platform) : option string * AudioService * Platform :=
  if isRecording svc then (None, svc, pf)
  else if negb (requestPermissions env) then (None, svc, pf)
  else match audioModeReply env with
       | Js.Throw _ => (None, svc, pf)
       | Js.Return _ =>
           match createAsync env pf with
           | (Js.Throw _, pf') => (None, svc, pf')
           | (Js.Return rec, pf') =>
               (Some "recording",
                {| recording := Some rec; isRecording := true |}, pf')
           end
       end.

(** [recording.stopAndUnloadAsync()]: on success the session is gone. *)
Definition stopAndUnloadAsync (reply : Js.Outcome unit) (rec : Recording)
    (pf : Platform) : Js.Outcome unit * Platform :=
  match reply with
  | Js.Return _ =>
      (Js.Return tt,
       {| live := filter (fun s => s <> session rec) (live pf);
          created := created pf |})
  | Js.Throw e => (Js.Throw e, pf)
  end.

(** [stopRecording()]: the URI of the recorded file or [null]. *)
Definition stopRecording (reply : Js.Outcome unit) (svc : AudioService)
    (pf : Platform) : option string * AudioService * Platform :=
  match isRecording svc, recording svc with
  | true, Some rec =>
      match stopAndUnloadAsync reply rec pf with
      | (Js.Throw _, pf') => (None, svc, pf')
      | (Js.Return _, pf') =>
          (getURI rec, {| recording := None; isRecording := false |}, pf')
      end
  | _, _ => (None, svc, pf)
  end.

Definition getIsRecording (svc : AudioService) : bool := isRecording svc.

(** Calls on one service object, each with the platform's replies. *)
Inductive Call : Type :=
| CStart (env : StartReplies)
| CStop (reply : Js.Outcome unit).

Definition step (st : AudioService * Platform) (c : Call)
    : AudioService * Platform :=
  match c with
  | CStart env => let '(_, svc, pf) := startRecording env st.1 st.2 in (svc, pf)
  | CStop reply => let '(_, svc, pf) := stopRecording reply st.1 st.2 in (svc, pf)
  end.

Definition run (calls : list Call) : AudioService * Platform :=
  foldl step (create, idle) calls.

(** The platform sessions a service object accounts for. *)
Definition sessionsOf (svc : AudioService) : list nat :=
  match isRecording svc, recording svc with
  | true, Some rec => [session rec]
  | _, _ => []
  end.

(** A platform that grants everything. *)
Definition permissive : StartReplies :=
  {| permissionReply := Js.Return granted;
     audioModeReply := Js.Return tt;
     createReply := Js.Return (Some "file:///cache/Audio/recording-1.m4a") |}.

(** What one [FileSystem.uploadAsync] call answers; [json] tells whether
    [JSON.parse] accepts the body. *)
Record UploadResponse : Type := mkUploadResponse {
  status : Z;
  body : string;
  json : bool
}.

Record UploadOutcome : Type := mkUploadOutcome {
  success : bool;
  message : string
}.

(** [body || 'Неизвестная ошибка'] *)
Definition bodyOr (fallback body : string) : string :=
  if String.eqb body "" then fallback else body.

(** [uploadRecording(uri, locationId, durationSeconds)], from the reply of
    [FileSystem.uploadAsync] on. Both branches of the inner [try] return
    the same object. *)
Definition uploadRecording (reply : Js.Outcome UploadResponse)
    : UploadOutcome :=
  match reply with
  | Js.Return response =>
      if (status response =? 200)%Z || (status response =? 201)%Z then
        if json response
        then {| success := true;
                message := "Запись успешно загружена на сервер" |}
        else {| success := true;
                message := "Запись успешно загружена на сервер" |}
      else
        {| success := false;
           message := "Ошибка сервера: " +:+ Js.showZ (status response)
                      +:+ ". " +:+ bodyOr "Неизвестная ошибка" (body response) |}
  | Js.Throw error =>
      {| success := false;
         message := "Проблема с загрузкой: "
                    +:+ Js.messageOr "Неизвестная ошибка при загрузке" error
                    +:+ ". Запись сохранена локально." |}
  end.

End AudioService.

(** ** Sequential effectful code: fields, exceptions and observable calls *)

Module Eff.
Import Js.

(** A method body: from the object's fields [S] to its completion, the
    updated fields and the observable events [E] it produced, in order. *)
Definition Eff (S E A : Type) : Type := S -> Outcome A * S * list E.

Section Ops.
Context {S E : Type}.

Definition ret {A} (a : A) : Eff S E A := fun s => (Return a, s, []).

Definition throw {A} (e : Thrown) : Eff S E A := fun s => (Throw e, s, []).

Definition bind {A B} (m : Eff S E A) (k : A -> Eff S E B) : Eff S E B :=
  fun s =>
    match m s with
    | (Return a, s1, t1) =>
        let '(o, s2, t2) := k a s1 in (o, s2, t1 ++ t2)
    | (Throw e, s1, t1) => (Throw e, s1, t1)
    end.

(** [try { m } catch (e) { ... }] with the handler still to come: the
    completion of [m] as a value. Effects made before the [throw]
    stay. *)
Definition try {A} (m : Eff S E A) : Eff S E (A + Thrown) :=
  fun s =>
    match m s with
    | (Return a, s1, t1) => (Return (inl a), s1, t1)
    | (Throw e, s1, t1) => (Return (inr e), s1, t1)
    end.

Definition get : Eff S E S := fun s => (Return s, s, []).
Definition put (s' : S) : Eff S E unit := fun _ => (Return tt, s', []).
Definition emit (e : E) : Eff S E unit := fun s => (Return tt, s, [e]).

(** An awaited platform call: it is observed, then completes as the
    platform decides. *)
Definition await {A} (e : E) (reply : Outcome A) : Eff S E A :=
  fun s => (reply, s, [e]).

(** The completion of a call that touches neither the fields nor the
    outside world ([response.json()] on a response already received). *)
Definition lift {A} (o : Outcome A) : Eff S E A := fun s => (o, s, []).

Definition outcome {A} (m : Eff S E A) (s : S) : Outcome A := (m s).1.1.
Definition final {A} (m : Eff S E A) (s : S) : S := (m s).1.2.
Definition trace {A} (m : Eff S E A) (s : S) : list E := (m s).2.
End Ops.

Module Notations.
Notation "x <- m ;; k" := (bind m (fun x => k))
  (at level 100, m at next level, right associativity).
Notation "m ;;; k" := (bind m (fun _ => k))
  (at level 100, right associativity).
End Notations.

End Eff.

(** ** HTTP replies *)

Module Http.

(** A response: its status, its body text and what [JSON.parse] makes of
    that text ([None] when it is not JSON of the expected shape). *)
Record Response (T : Type) : Type := mkResponse {
  status : Z;
  body : string;
  json : option T
}.
Arguments mkResponse {T}.
Arguments status {T}.
Arguments body {T}.
Arguments json {T}.

(** [response.ok]: the status is in the range 200-299. *)
Definition ok {T} (r : Response T) : bool :=
  (200 <=? status r)%Z && (status r <? 300)%Z.

(** [response.json()] / [JSON.parse(body)] *)
Definition parseError : Js.Thrown := Js.ErrorObj "JSON Parse error".

Definition parse {T} (r : Response T) : Js.Outcome T :=
  match json r with
  | Some data => Js.Return data
  | None => Js.Throw parseError
  end.

End Http.

(** ** src/services/ApiService.ts: the client that mirrors its token *)

Module StoredTokenApi.
Import Js Eff Eff.Notations.

Record User : Type := mkUser {
  id : Z;
  username : string;
  full_name : string;
  role : string
}.

(** The declared result of [login]; the server's JSON has the same
    shape. *)
Record LoginResult : Type := mkLoginResult {
  success : bool;
  user : option User;
  token : option string;
  message : option string
}.

(** The field [authToken], the items of [AsyncStorage], and what the
    storage answers to the writes still to come: every [setItem] or
    [removeItem] takes the next entry of [rejections], [true] for a write
    that is rejected; writes made once the list is used up are accepted. *)
Record ApiService : Type := mkApi {
  authToken : option string;
  storage : gmap string string;
  rejections : list bool
}.

(** The next write to the storage is rejected. *)
Definition writeRejected (api : ApiService) : bool :=
  nth 0 (rejections api) false.

(** No write still to come is rejected. *)
Definition writable (api : ApiService) : bool :=
  negb (existsb (fun rejected => rejected) (rejections api)).

Inductive Event : Type :=
| Fetch (method endpoint : string) (authorization : option string).

Definition M := Eff ApiService Event.

(** [setAuthToken(token)]: the field is set, and the write to the storage
    is started without [await] or [catch]; when the storage rejects it the
    stored item stays as it was. *)
Definition setAuthToken (tok : string) : M unit :=
  api <- get ;;
  put {| authToken := Some tok;
         storage := if writeRejected api then storage api
                    else <["authToken" := tok]> (storage api);
         rejections := drop 1 (rejections api) |}.

(** [clearAuthToken()]: the same for the removal of the item. *)
Definition clearAuthToken : M unit :=
  api <- get ;;
  put {| authToken := None;
         storage := if writeRejected api then storage api
                    else delete "authToken" (storage api);
         rejections := drop 1 (rejections api) |}.

(** [data.message || `HTTP error! status: ${response.status}`] *)
Definition errorTextOf (data : LoginResult) (status : Z) : string :=
  if truthy (message data) then default "" (message data)
  else "HTTP error! status: " +:+ showZ status.

(** [makeRequest(endpoint, options)]; [reply] is the completion of
    [fetch]. The [catch] block logs and rethrows. *)
Definition makeRequest (method endpoint : string)
    (reply : Outcome (Http.Response LoginResult)) : M LoginResult :=
  api <- get ;;
  let authorization :=
    if truthy (authToken api)
    then Some ("Bearer " +:+ default "" (authToken api)) else None in
  response <- await (Fetch method endpoint authorization) reply ;;
  data <- lift (Http.parse response) ;;
  if negb (Http.ok response)
  then throw (ErrorObj (errorTextOf data (Http.status response)))
  else ret data.

(** [login(username, password)] *)
Definition login (username password : string)
    (reply : Outcome (Http.Response LoginResult)) : M LoginResult :=
  r <- try (response <- makeRequest "POST" "/api/auth/login" reply ;;
            (if success response && truthy (token response)
             then setAuthToken (default "" (token response))
             else ret tt) ;;;
            ret response) ;;
  match r with
  | inl response => ret response
  | inr error =>
      ret {| success := false; user := None; token := None;
             message := Some (messageOr "Ошибка авторизации" error) |}
  end.

(** [logout()] *)
Definition logout : M unit := clearAuthToken.

(** A client that holds a token, a network failure and a granted login. *)
Definition loggedIn : ApiService :=
  {| authToken := Some "token-1"; storage := {["authToken" := "token-1"]};
     rejections := [] |}.

(** The same client over a storage that rejects the next write. *)
Definition loggedInReadOnly : ApiService :=
  {| authToken := Some "token-1"; storage := {["authToken" := "token-1"]};
     rejections := [true] |}.

Definition networkDown : Outcome (Http.Response LoginResult) :=
  Throw (ErrorObj "Network request failed").

Definition granted : Outcome (Http.Response LoginResult) :=
  Return {| Http.status := 200; Http.body := "login accepted";
            Http.json := Some {| success := true; user := None;
                                 token := Some "token-2";
                                 message := None |} |}.

(** *** The other calls of the class *)

(** [loadAuthToken()]: the token persisted by an earlier run becomes the
    token held; a rejected read is logged and changes nothing. *)
Definition loadAuthToken (rejected : bool) : M unit :=
  api <- get ;;
  if rejected then ret tt
  else put {| authToken := storage api !! "authToken";
              storage := storage api; rejections := rejections api |}.

(** [getProfile()]; the server's JSON has the shape of [LoginResult]
    without a token. *)
Definition getProfile (reply : Outcome (Http.Response LoginResult))
    : M LoginResult :=
  r <- try (makeRequest "GET" "/api/auth/me" reply) ;;
  match r with
  | inl response => ret response
  | inr error =>
      ret {| success := false; user := None; token := None;
             message := Some (messageOr "Ошибка получения профиля" error) |}
  end.

(** Calls on one client object, each with the reply of the network. *)
Inductive Call : Type :=
| CLogin (username password : string)
         (reply : Outcome (Http.Response LoginResult))
| CLogout
| CGetProfile (reply : Outcome (Http.Response LoginResult))
| CLoadAuthToken (rejected : bool).

Definition step (api : ApiService) (c : Call) : ApiService :=
  match c with
  | CLogin username password reply => final (login username password reply) api
  | CLogout => final logout api
  | CGetProfile reply => final (getProfile reply) api
  | CLoadAuthToken rejected => final (loadAuthToken rejected) api
  end.

Definition run (calls : list Call) (api : ApiService) : ApiService :=
  foldl step api calls.

(** The persisted token is the token held. *)
Definition mirrored (api : ApiService) : Prop :=
  storage api !! "authToken" = authToken api.

(** [new ApiService()] over the items an earlier run left behind, before
    [loadAuthToken] has completed. *)
Definition restarted (api : ApiService) : ApiService :=
  {| authToken := None; storage := storage api;
     rejections := rejections api |}.

(** *** [uploadAudio] of this class: one request, no retry *)

Record AudioUploadData : Type := mkAudioUploadData {
  uri : string;
  type : string;
  name : string;
  duration_seconds : option Z;
  location_id : option Z;
  recording_date : option string
}.

(** The declared result of [uploadAudio]. *)
Record UploadReply : Type := mkUploadReply {
  upload_success : bool;
  upload_recording : option string;
  upload_message : option string
}.

(** A value appended to the [FormData]: the file part, a text field, or
    the JSON text of the metadata object. *)
Inductive FormValue : Type :=
| FilePart (uri type name : string)
| TextField (value : string)
| MetadataJson (app_version platform uploaded_from : string).

Inductive UploadEvent : Type :=
| PostForm (endpoint : string) (authorization : option string)
           (form : list (string * FormValue)).

(** [s.split('.')]: the pieces between the dots, at least one. *)
Fixpoint splitDots (s : string) : list string :=
  match s with
  | EmptyString => [EmptyString]
  | String c rest =>
      if String.eqb (String c EmptyString) "." then EmptyString :: splitDots rest
      else match splitDots rest with
           | piece :: pieces => String c piece :: pieces
           | [] => [String c EmptyString]
           end
  end.

(** [name.split('.').pop() || 'm4a'] *)
Definition fileExtension (name : string) : string :=
  let popped := default "" (last (splitDots name)) in
  if String.eqb popped "" then "m4a" else popped.

(** A number given and not zero ([if (audioData.duration_seconds)]). *)
Definition given (n : option Z) : bool :=
  match n with
  | Some z => negb (z =? 0)%Z
  | None => false
  end.

(** The form as [uploadAudio] fills it; [now] is [Date.now()] and [os] is
    [Platform.OS]. *)
Definition formOf (now : Z) (os : string) (audioData : AudioUploadData)
    : list (string * FormValue) :=
  let fileName :=
    "recording_" +:+ showZ now +:+ "." +:+ fileExtension (name audioData) in
  [("audio",
    FilePart (uri audioData)
             (if String.eqb (type audioData) "" then "audio/m4a"
              else type audioData)
             fileName)]
  ++ (if given (duration_seconds audioData)
      then [("duration_seconds",
             TextField (showZ (default 0%Z (duration_seconds audioData))))]
      else [])
  ++ (if given (location_id audioData)
      then [("location_id",
             TextField (showZ (default 0%Z (location_id audioData))))]
      else [])
  ++ (if truthy (recording_date audioData)
      then [("recording_date",
             TextField (default "" (recording_date audioData)))]
      else [])
  ++ [("metadata", MetadataJson "3.0.0" os "mobile_app")].

(** [data.message || `HTTP error! status: ${response.status}`] *)
Definition uploadErrorText (data : UploadReply) (status : Z) : string :=
  if truthy (upload_message data) then default "" (upload_message data)
  else "HTTP error! status: " +:+ showZ status.

(** [uploadAudio(audioData)] *)
Definition uploadAudio (now : Z) (os : string) (audioData : AudioUploadData)
    (reply : Outcome (Http.Response UploadReply))
    : Eff ApiService UploadEvent UploadReply :=
  r <- try (api <- get ;;
            let authorization :=
              if truthy (authToken api)
              then Some ("Bearer " +:+ default "" (authToken api)) else None in
            response <- await (PostForm "/api/recordings/upload" authorization
                                        (formOf now os audioData)) reply ;;
            data <- lift (Http.parse response) ;;
            if negb (Http.ok response)
            then throw (ErrorObj (uploadErrorText data (Http.status response)))
            else ret data) ;;
  match r with
  | inl data => ret data
  | inr error =>
      ret {| upload_success := false; upload_recording := None;
             upload_message :=
               Some (messageOr "Ошибка загрузки аудио файла" error) |}
  end.

(** The text holds no dot. *)
Fixpoint dotFree (s : string) : bool :=
  match s with
  | EmptyString => true
  | String c rest =>
      negb (String.eqb (String c EmptyString) ".") && dotFree rest
  end.

(** The names of the fields of a form, in order. *)
Definition fieldNames (form : list (string * FormValue)) : list string :=
  form.*1.

(** A recording of length zero, as the screen may hand it over. *)
Definition silentClip : AudioUploadData :=
  {| uri := "file:///cache/Audio/recording-1.m4a"; type := "";
     name := "recording"; duration_seconds := Some 0%Z;
     location_id := Some 2%Z;
     recording_date := Some "2025-06-11T16:05:04.000Z" |}.

End StoredTokenApi.

(** ** services/ApiService.ts: the upload client with retries

    The class that keeps its token in memory only. The sources hold two
    revisions of its retrying [uploadAudio]: the first posts a [FormData]
    with [fetch], the second sends the file with [FileSystem.uploadAsync].
    The login gate and the retry loop are the same text in both; they differ
    in the fallback credentials and in the body of one attempt. (An older
    revision without login gate and retries is not modelled.)

    Calls to the logger and the console change neither the token nor the
    control flow and are left out, except for the line that opens each
    iteration of the loop, which is kept as the event [AttemptStarted]. *)

Module ApiService.
Import Js Eff Eff.Notations.

Inductive Revision : Type := FetchUpload | ExpoUpload.

Definition API_BASE_URL : string :=
  "https://contact-recorder-backend-production.up.railway.app".

Record LoginResponse : Type := mkLoginResponse {
  login_success : bool;
  login_message : string;
  login_token : option string
}.

(** The declared result of [uploadAudio]. *)
Record UploadResult : Type := mkUploadResult {
  success : bool;
  message : string;
  recording : option string
}.

(** The argument of [uploadAudio]. *)
Record RecordingData : Type := mkRecordingData {
  uri : string;
  type : string;
  name : string;
  duration_seconds : Z;
  location_id : Z;
  recording_date : string
}.

(** The only field of the class. *)
Record ApiService : Type := mkApi { token : option string }.

Inductive Body : Type :=
| NoBody
| LoginJson (username password : string)
| FormData (file : RecordingData).

(** The calls that leave the client, and the line that opens each
    iteration of the retry loop. *)
Inductive Event : Type :=
| Fetch (method url : string) (authorization : option string) (body : Body)
| UploadAsync (first second authorization : string) (file : RecordingData)
| Sleep (ms : Z)
| AttemptStarted (attempt : nat).

(** The server and the network, as seen by one [uploadAudio] call: the
    completion of the login request and, for each iteration of the loop,
    of its liveness probe and of its upload request. *)
Record World : Type := mkWorld {
  loginReply : Outcome (Http.Response LoginResponse);
  healthReply : nat -> Outcome (Http.Response unit);
  uploadReply : nat -> Outcome (Http.Response UploadResult)
}.

Definition M := Eff ApiService Event.

Definition setToken (tok : string) : M unit := put {| token := Some tok |}.
Definition clearToken : M unit := put {| token := None |}.

(** [if (this.token) headers['Authorization'] = `Bearer ${this.token}`] *)
Definition bearer (api : ApiService) : option string :=
  if truthy (token api)
  then Some ("Bearer " +:+ default "" (token api)) else None.

(** [request(endpoint, options)]; the [catch] block logs and rethrows. *)
Definition request {T} (method endpoint : string) (body : Body)
    (reply : Outcome (Http.Response T)) : M T :=
  api <- get ;;
  response <- await (Fetch method (API_BASE_URL +:+ endpoint) (bearer api) body)
                    reply ;;
  if negb (Http.ok response)
  then throw (ErrorObj ("HTTP error! status: " +:+ showZ (Http.status response)))
  else lift (Http.parse response).

(** [login(username, password)] *)
Definition login (w : World) (username password : string) : M LoginResponse :=
  response <- request "POST" "/api/auth/login" (LoginJson username password)
                      (loginReply w) ;;
  (if login_success response && truthy (login_token response)
   then setToken (default "" (login_token response))
   else ret tt) ;;;
  ret response.

(** The credentials of the implicit login. *)
Definition fallbackCredentials (rev : Revision) : string * string :=
  match rev with
  | FetchUpload => ("продавец1", "123456")
  | ExpoUpload => ("admin", "admin123")
  end.

Definition maxRetries : nat := 3.

Definition uploadUrl : string := API_BASE_URL +:+ "/api/recordings/upload".

(** The liveness probe that precedes each upload request. *)
Definition healthCheck (w : World) (attempt : nat) : M unit :=
  probe <- await (Fetch "GET" (API_BASE_URL +:+ "/health") None NoBody)
                 (healthReply w attempt) ;;
  if negb (Http.ok probe)
  then throw (ErrorObj ("Server health check failed: "
                        +:+ showZ (Http.status probe)))
  else ret tt.

(** The [try] block of one iteration, first revision. *)
Definition attemptFetch (w : World) (recordingData : RecordingData)
    (attempt : nat) : M UploadResult :=
  emit (AttemptStarted attempt) ;;;
  api <- get ;;
  healthCheck w attempt ;;;
  response <- await (Fetch "POST" uploadUrl (bearer api) (FormData recordingData))
                    (uploadReply w attempt) ;;
  if negb (Http.ok response)
  then throw (ErrorObj ("HTTP " +:+ showZ (Http.status response) +:+ ": "
                        +:+ Http.body response))
  else lift (Http.parse response).

(** The [try] block of one iteration, second revision. The arguments of
    [FileSystem.uploadAsync] are recorded in the order of the call. *)
Definition attemptExpo (w : World) (recordingData : RecordingData)
    (attempt : nat) : M UploadResult :=
  emit (AttemptStarted attempt) ;;;
  (if String.eqb (uri recordingData) ""
      || negb (String.prefix "file://" (uri recordingData))
   then throw (ErrorObj ("Некорректный URI файла: " +:+ uri recordingData))
   else ret tt) ;;;
  healthCheck w attempt ;;;
  api <- get ;;
  uploadResult <-
    await (UploadAsync (uri recordingData) uploadUrl
                       (default "" (bearer api)) recordingData)
          (uploadReply w attempt) ;;
  if (200 <=? Http.status uploadResult)%Z && (Http.status uploadResult <? 300)%Z
  then
    r <- try (lift (Http.parse uploadResult)) ;;
    match r with
    | inl result => ret result
    | inr _ => throw (ErrorObj "Ошибка парсинга ответа сервера")
    end
  else throw (ErrorObj ("HTTP " +:+ showZ (Http.status uploadResult) +:+ ": "
                        +:+ Http.body uploadResult)).

Definition uploadAttempt (rev : Revision) : World -> RecordingData -> nat
    -> M UploadResult :=
  match rev with
  | FetchUpload => attemptFetch
  | ExpoUpload => attemptExpo
  end.

(** [for (let attempt = 1; attempt <= maxRetries; attempt++)] over the
    attempt numbers still to run, and the [throw lastError] after it.
    [lastError] starts as [undefined]. *)
Fixpoint retryLoop (body : nat -> M UploadResult) (attempts : list nat)
    (lastError : option Thrown) : M UploadResult :=
  match attempts with
  | [] => throw (default (NonError "undefined") lastError)
  | attempt :: later =>
      r <- try (body attempt) ;;
      match r with
      | inl result => ret result
      | inr error =>
          (if (attempt <? maxRetries)%nat
           then emit (Sleep (Z.of_nat attempt * 2000))
           else ret tt) ;;;
          retryLoop body later (Some error)
      end
  end.

(** The block guarded by [if (!this.token)]: [None] to go on, or the
    object returned from its [catch]. *)
Definition implicitLogin (rev : Revision) (w : World)
    : M (option UploadResult) :=
  let '(username, password) := fallbackCredentials rev in
  r <- try (authResponse <- login w username password ;;
            if negb (login_success authResponse)
            then throw (ErrorObj "Не удалось авторизоваться для загрузки файла")
            else ret tt) ;;
  match r with
  | inl _ => ret None
  | inr authError =>
      ret (Some {| success := false;
                   message := "Ошибка авторизации: " +:+ messageText authError;
                   recording := None |})
  end.

(** [uploadAudio(recordingData)] *)
Definition uploadAudio (rev : Revision) (w : World)
    (recordingData : RecordingData) : M UploadResult :=
  api <- get ;;
  aborted <- (if negb (truthy (token api)) then implicitLogin rev w
              else ret None) ;;
  match aborted with
  | Some failure => ret failure
  | None =>
      retryLoop (uploadAttempt rev w recordingData) (seq 1 maxRetries) None
  end.

(** *** Reading a run *)

Definition isAttempt (e : Event) : bool :=
  match e with AttemptStarted _ => true | _ => false end.

Definition isLogin (e : Event) : bool :=
  match e with
  | Fetch _ _ _ (LoginJson _ _) => true
  | _ => false
  end.

Definition isPacing (e : Event) : bool :=
  match e with AttemptStarted _ | Sleep _ => true | _ => false end.

(** How many iterations of the retry loop a run started. *)
Definition attemptsMade (t : list Event) : nat :=
  length (List.filter isAttempt t).

Definition loginCalls (t : list Event) : nat :=
  length (List.filter isLogin t).

(** The requests that carry the audio file. *)
Definition isUpload (e : Event) : bool :=
  match e with
  | Fetch _ _ _ (FormData _) => true
  | UploadAsync _ _ _ _ => true
  | _ => false
  end.

Definition uploadsSent (t : list Event) : nat :=
  length (List.filter isUpload t).

(** The run reduced to its attempts and the pauses between them. *)
Definition pacing (t : list Event) : list Event := List.filter isPacing t.

(** The delays of a run, in order. *)
Fixpoint delays (t : list Event) : list Z :=
  match t with
  | [] => []
  | Sleep ms :: later => ms :: delays later
  | _ :: later => delays later
  end.

(** A failure result: an object with [success = false] and a message. *)
Definition failureResult (o : Outcome UploadResult) : bool :=
  match o with
  | Return r => negb (success r) && negb (String.eqb (message r) "")
  | Throw _ => false
  end.

(** The server accepts the implicit login: a success status and a JSON body
    whose [success] is true. *)
Definition loginGranted (w : World) : bool :=
  match loginReply w with
  | Return response =>
      Http.ok response &&
      match Http.json response with
      | Some data => login_success data
      | None => false
      end
  | Throw _ => false
  end.

(** The upload starts with a token, or gets past the implicit login. *)
Definition authorized (w : World) (api : ApiService) : bool :=
  truthy (token api) || loginGranted w.

(** Iteration [attempt] gets as far as its upload request: the liveness
    probe answers with a success status and, in the second revision, the
    file URI passes the check. *)
Definition reachesUpload (rev : Revision) (w : World)
    (recordingData : RecordingData) (attempt : nat) : bool :=
  match healthReply w attempt with
  | Return probe => Http.ok probe
  | Throw _ => false
  end &&
  match rev with
  | FetchUpload => true
  | ExpoUpload =>
      negb (String.eqb (uri recordingData) "")
      && String.prefix "file://" (uri recordingData)
  end.

(** Iteration [attempt] ends in the [catch] block. *)
Definition attemptFails (rev : Revision) (w : World)
    (recordingData : RecordingData) (api : ApiService) (attempt : nat) : Prop :=
  returned (outcome (uploadAttempt rev w recordingData attempt) api) = false.

(** One iteration leaves the token alone, announces itself once, neither
    sleeps nor logs in, sends the file at most once, and ends the same way
    whatever the token is. *)
Definition Quiet (body : nat -> M UploadResult) : Prop :=
  forall (attempt : nat) (api : ApiService),
    final (body attempt) api = api /\
    pacing (trace (body attempt) api) = [AttemptStarted attempt] /\
    loginCalls (trace (body attempt) api) = 0%nat /\
    (uploadsSent (trace (body attempt) api) <= 1)%nat /\
    forall api', outcome (body attempt) api' = outcome (body attempt) api.

(** The retry loop told by the completions of its iterations alone: how
    it ends, and its attempts and pauses in order. *)
Fixpoint loopSummary (completion : nat -> Outcome UploadResult)
    (attempts : list nat) (lastError : option Thrown)
    : Outcome UploadResult * list Event :=
  match attempts with
  | [] => (Throw (default (NonError "undefined") lastError), [])
  | attempt :: later =>
      match completion attempt with
      | Return result => (Return result, [AttemptStarted attempt])
      | Throw error =>
          let '(end_, rest) := loopSummary completion later (Some error) in
          (end_,
           AttemptStarted attempt
           :: (if (attempt <? maxRetries)%nat
               then [Sleep (Z.of_nat attempt * 2000)] else [])
           ++ rest)
      end
  end.

(** The request of the implicit login and the object returned when it does
    not go through. *)
Definition loginRequest (rev : Revision) : Event :=
  Fetch "POST" (API_BASE_URL +:+ "/api/auth/login") None
        (LoginJson (fallbackCredentials rev).1 (fallbackCredentials rev).2).

Definition authorizationFailure (reason : string) : UploadResult :=
  {| success := false; message := "Ошибка авторизации: " +:+ reason;
     recording := None |}.

(** *** Sample runs *)

Definition sampleData : RecordingData :=
  {| uri := "file:///cache/Audio/recording-1.m4a"; type := "audio/m4a";
     name := "recording_admin_2025-06-11T16-05-04-000Z.m4a";
     duration_seconds := 4; location_id := 2;
     recording_date := "2025-06-11T16:05:04.000Z" |}.

Definition withToken : ApiService := {| token := Some "token-1" |}.
Definition withoutToken : ApiService := {| token := None |}.

Definition respond {T} (status : Z) (body : string) (json : option T)
    : Outcome (Http.Response T) :=
  Return {| Http.status := status; Http.body := body; Http.json := json |}.

Definition networkDown {T} : Outcome (Http.Response T) :=
  Throw (ErrorObj "Network request failed").

Definition stored : UploadResult :=
  {| success := true; message := "Recording uploaded";
     recording := Some "recording 17" |}.

Definition rejectedLogin : Outcome (Http.Response LoginResponse) :=
  respond 401 "Unauthorized" None.

(** The server is unreachable for the whole upload. *)
Definition offline : World :=
  {| loginReply := networkDown;
     healthReply := fun _ => networkDown;
     uploadReply := fun _ => networkDown |}.

(** The network comes back for the third attempt. *)
Definition recovering : World :=
  {| loginReply := rejectedLogin;
     healthReply := fun attempt =>
       if (attempt <? 3)%nat then networkDown else respond 200 "ok" (Some tt);
     uploadReply := fun _ => respond 201 "created" (Some stored) |}.

(** The server accepts every upload and answers with a plain text body. *)
Definition plainTextServer : World :=
  {| loginReply := rejectedLogin;
     healthReply := fun _ => respond 200 "ok" (Some tt);
     uploadReply := fun _ => respond 200 "OK" None |}.

(** *** Further readings of a run *)

(** The fields once the login gate is passed (or has given up). *)
Definition afterGate (rev : Revision) (w : World) (api : ApiService)
    : ApiService :=
  if truthy (token api) then api else final (implicitLogin rev w) api.

(** The upload request of one iteration, as each revision builds it from
    the token it holds and the data of the recording. *)
Definition uploadRequest (rev : Revision) (api : ApiService)
    (recordingData : RecordingData) : Event :=
  match rev with
  | FetchUpload => Fetch "POST" uploadUrl (bearer api) (FormData recordingData)
  | ExpoUpload =>
      UploadAsync (uri recordingData) uploadUrl (default "" (bearer api))
                  recordingData
  end.

Definition probeRequest : Event :=
  Fetch "GET" (API_BASE_URL +:+ "/health") None NoBody.

(** An upload request carries the given [Authorization] value; other events
    carry nothing to check. *)
Definition carries (value : string) (e : Event) : Prop :=
  match e with
  | Fetch _ _ authorization (FormData _) => authorization = Some value
  | UploadAsync _ _ authorization _ => authorization = value
  | _ => True
  end.

(** The liveness probe of iteration [attempt] does not let the upload
    through: the request throws or is answered with a failure status. *)
Definition probeFails (w : World) (attempt : nat) : bool :=
  match healthReply w attempt with
  | Return probe => negb (Http.ok probe)
  | Throw _ => true
  end.

(** The check of the second revision on the file URI. *)
Definition validUri (recordingData : RecordingData) : bool :=
  negb (String.eqb (uri recordingData) "")
  && String.prefix "file://" (uri recordingData).

(** The server answers the upload request of iteration [attempt] with a
    failure status. *)
Definition uploadRejected (w : World) (attempt : nat) : bool :=
  match uploadReply w attempt with
  | Return response => negb (Http.ok response)
  | Throw _ => false
  end.

(** The server accepts the implicit login and hands out the token [tok]. *)
Definition loginYields (w : World) (tok : string) : Prop :=
  exists response data,
    loginReply w = Return response /\ Http.ok response = true /\
    Http.json response = Some data /\ login_success data = true /\
    login_token data = Some tok /\ tok <> "".

(** A server that is up and rejects every upload, and one whose login hands
    out a token. *)
Definition rejecting : World :=
  {| loginReply := rejectedLogin;
     healthReply := fun _ => respond 200 "ok" (Some tt);
     uploadReply := fun _ => respond 500 "Internal Server Error" None |}.

Definition welcoming : World :=
  {| loginReply := respond 200 "login accepted"
                     (Some {| login_success := true; login_message := "ok";
                              login_token := Some "token-9" |});
     healthReply := fun _ => respond 200 "ok" (Some tt);
     uploadReply := fun _ => respond 500 "Internal Server Error" None |}.

(** A server that stores the file at once. *)
Definition accepting : World :=
  {| loginReply := rejectedLogin;
     healthReply := fun _ => respond 200 "ok" (Some tt);
     uploadReply := fun _ => respond 201 "created" (Some stored) |}.

Definition badUriData : RecordingData :=
  {| uri := "content://media/recording-1.m4a"; type := "audio/m4a";
     name := "recording-1.m4a"; duration_seconds := 4; location_id := 2;
     recording_date := "2025-06-11T16:05:04.000Z" |}.

End ApiService.

(** ** src/services/AudioService.ts: keeping the file of a recording *)

Module AudioFiles.
Import Js Eff Eff.Notations.

(** The calls made to [expo-file-system]. *)
Inductive FsEvent : Type :=
| GetInfo (path : string)
| MakeDirectory (path : string)
| Copy (from to : string).

(** What the file system answers during one call: whether the recordings
    directory exists, and how creating it and copying the file end. *)
Record FsReplies : Type := mkFsReplies {
  infoReply : Outcome bool;
  mkdirReply : Outcome unit;
  copyReply : Outcome unit
}.

(** [saveRecordingToDocuments(uri, filename)]; [documentDirectory] is
    [FileSystem.documentDirectory]. The [catch] block logs and returns the
    URI it was given. *)
Definition saveRecordingToDocuments (documentDirectory : string)
    (fs : FsReplies) (uri filename : string) : Eff unit FsEvent string :=
  r <- try (let recordingsDir := documentDirectory +:+ "recordings/" in
            dirInfo <- await (GetInfo recordingsDir) (infoReply fs) ;;
            (if negb dirInfo
             then await (MakeDirectory recordingsDir) (mkdirReply fs)
             else ret tt) ;;;
            let finalPath := recordingsDir +:+ filename in
            await (Copy uri finalPath) (copyReply fs) ;;;
            ret finalPath) ;;
  match r with
  | inl finalPath => ret finalPath
  | inr _ => ret uri
  end.

(** Every file-system call of the method goes through. *)
Definition copied (fs : FsReplies) : bool :=
  match infoReply fs with
  | Return present => (present || returned (mkdirReply fs))
                      && returned (copyReply fs)
  | Throw _ => false
  end.

(** A file system with the directory in place, and one that is full. *)
Definition roomy : FsReplies :=
  {| infoReply := Return true; mkdirReply := Return tt;
     copyReply := Return tt |}.

Definition diskFull : FsReplies :=
  {| infoReply := Return false; mkdirReply := Return tt;
     copyReply := Throw (ErrorObj "No space left on device") |}.

End AudioFiles.

(** ** src/screens/RecordingScreen.tsx: what is kept of a finished
    recording *)

Module RecordingScreen.
Import Js Eff.

(** [s.replace(/[:.]/g, '-')] *)
Fixpoint dashed (s : string) : string :=
  match s with
  | EmptyString => EmptyString
  | String c rest =>
      if String.eqb (String c EmptyString) ":"
         || String.eqb (String c EmptyString) "."
      then "-" +:+ dashed rest
      else String c (dashed rest)
  end%string.

(** What [stopRecording] of the screen has in hand after
    [audioService.stopRecording()]: the URI it returned (or [null]), the
    props [user] and [location], the start time held in the component's
    state (or [null]), the end time (timestamps as their ISO text) and the
    duration in milliseconds read by [getRecordingDuration] from the
    metadata of the file. *)
Record Stopped : Type := mkStopped {
  uri : option string;
  userId : string;
  username : string;
  locationId : string;
  recordingStartTime : option string;
  endTime : string;
  duration : Z
}.

(** What the outside answers while the recording is kept: the upload, the
    file system, and the clock ([Date.now()] for the id and for the server
    id, [new Date().toISOString()] for the file name). *)
Record Surroundings : Type := mkSurroundings {
  uploadReply : Outcome AudioService.UploadResponse;
  documentDirectory : string;
  fs : AudioFiles.FsReplies;
  idNow : Z;
  serverIdNow : Z;
  stamp : string
}.

Definition filenameOf (env : Surroundings) (rec : Stopped) : string :=
  "recording_" +:+ username rec +:+ "_" +:+ dashed (stamp env) +:+ ".m4a".

(** The record that [stopRecording] of the screen builds and gives to
    [StorageService.saveRecording]: in the inner [try] block when the upload
    succeeded, in its [catch] block otherwise (the [else] branch throws
    into it). [None] where nothing is built: the guard
    [uri && recordingStartTime] fails, or an exception reaches the outer
    [catch]. *)
Definition recordOf (env : Surroundings) (rec : Stopped)
    : option StorageService.Recording :=
  match uri rec, recordingStartTime rec with
  | Some uri, Some startTime =>
      if String.eqb uri "" then None
      else
        let uploadResult := AudioService.uploadRecording (uploadReply env) in
        if AudioService.success uploadResult then
          Some {| StorageService.id := showZ (idNow env);
                  StorageService.userId := userId rec;
                  StorageService.locationId := locationId rec;
                  StorageService.startTime := StorageService.DateObj startTime;
                  StorageService.endTime :=
                    Some (StorageService.DateObj (endTime rec));
                  StorageService.audioFilePath := uri;
                  StorageService.duration := duration rec;
                  StorageService.serverId := Some (serverIdNow env);
                  StorageService.synced := Some true |}
        else
          match outcome (AudioFiles.saveRecordingToDocuments
                           (documentDirectory env) (fs env) uri
                           (filenameOf env rec)) tt with
          | Return savedPath =>
              Some {| StorageService.id := showZ (idNow env);
                      StorageService.userId := userId rec;
                      StorageService.locationId := locationId rec;
                      StorageService.startTime :=
                        StorageService.DateObj startTime;
                      StorageService.endTime :=
                        Some (StorageService.DateObj (endTime rec));
                      StorageService.audioFilePath := savedPath;
                      StorageService.duration := duration rec;
                      StorageService.serverId := None;
                      StorageService.synced := Some false |}
          | Throw _ => None
          end
  | _, _ => None
  end.

(** The effect of [stopRecording] of the screen on the local storage.
    Alerts, log lines and the state of the component are left out. *)
Definition stopRecording (env : Surroundings) (rec : Stopped)
    (st : StorageService.AsyncStorage) : StorageService.AsyncStorage :=
  match recordOf env rec with
  | Some recording => StorageService.saveRecording recording st
  | None => st
  end.

(** The recorder gave a usable URI and the start time is set. *)
Definition complete (rec : Stopped) : bool :=
  match uri rec, recordingStartTime rec with
  | Some uri, Some _ => negb (String.eqb uri "")
  | _, _ => false
  end.

(** The upload was answered with status 200 or 201. *)
Definition accepted (env : Surroundings) : bool :=
  match uploadReply env with
  | Return response =>
      (AudioService.status response =? 200)%Z
      || (AudioService.status response =? 201)%Z
  | Throw _ => false
  end.

(** [padStart(n, '0')] on a text. *)
Definition padStart (n : nat) (s : string) : string :=
  String.concat "" (replicate (n - String.length s) "0") +:+ s.

(** [getRecordingDuration()] of the screen, from the elapsed milliseconds
    ([currentTime.getTime() - recordingStartTime.getTime()]). *)
Definition elapsedText (diffMs : Z) : string :=
  let minutes := (diffMs / 60000)%Z in
  let seconds := (Z.rem diffMs 60000 / 1000)%Z in
  padStart 2 (showZ minutes) +:+ ":" +:+ padStart 2 (showZ seconds).

(** A recording of four seconds and two ways it can end. *)
Definition fourSeconds : Stopped :=
  {| uri := Some "file:///cache/Audio/recording-1.m4a"; userId := "1";
     username := "admin"; locationId := "2";
     recordingStartTime := Some "2025-06-11T16:05:04.000Z";
     endTime := "2025-06-11T16:05:08.000Z"; duration := 4000 |}.

Definition uploaded : Surroundings :=
  {| uploadReply := Return (AudioService.mkUploadResponse 201 "created" true);
     documentDirectory := "file:///data/";
     fs := AudioFiles.roomy; idNow := 1749657908000;
     serverIdNow := 1749657908001; stamp := "2025-06-11T16:05:08.000Z" |}.

Definition cutOff : Surroundings :=
  {| uploadReply := Throw (ErrorObj "Network request failed");
     documentDirectory := "file:///data/";
     fs := AudioFiles.roomy; idNow := 1749657908000;
     serverIdNow := 1749657908001; stamp := "2025-06-11T16:05:08.000Z" |}.

End RecordingScreen.

(** ** src/screens/RecordingsListScreen.tsx: the list that is shown *)

Module RecordingsListScreen.
Import Js.

(** An element of the component's [recordings] state: a stored record and
    the flag the screen adds to it. *)
Record RecordingWithTranscription : Type := mkShown {
  recording : StorageService.Recording;
  isTranscribing : bool
}.

(** The component's list and the storage behind it. *)
Definition Screen : Type :=
  (list RecordingWithTranscription * StorageService.AsyncStorage)%type.

(** [loadRecordings()]: the list becomes what the storage returns, every
    flag cleared. *)
Definition loadRecordings (st : StorageService.AsyncStorage) : Screen :=
  let '(localRecordings, st') := StorageService.readRecordings st in
  ((fun r => {| recording := r; isTranscribing := false |})
     <$> localRecordings, st').

(** The confirmed branch of [handleDeleteRecording(recording)]:
    [removeRecording], then the entries with that id leave the list. *)
Definition handleDeleteRecording (target : StorageService.Recording)
    (scr : Screen) : Screen :=
  (filter (fun r => StorageService.id (recording r) <> StorageService.id target)
          scr.1,
   StorageService.removeRecording (StorageService.id target) scr.2).

(** [formatDuration(durationMs)] *)
Definition formatDuration (durationMs : Z) : string :=
  let minutes := (durationMs / 60000)%Z in
  let seconds := (Z.rem durationMs 60000 / 1000)%Z in
  showZ minutes +:+ ":" +:+ RecordingScreen.padStart 2 (showZ seconds).

End RecordingsListScreen.

(** ** src/services/StorageService.ts: user, location and clearing

    The same [AsyncStorage] seen with the items of all its keys. A text that
    is JSON is identified with the value it denotes. *)

Module UserStorage.

(** [interface User] and [interface Location] of [src/types]. *)
Record User : Type := mkUser {
  id : string;
  username : string;
  password : string;
  isLoggedIn : bool
}.

Record Location : Type := mkLocation {
  location_id : string;
  location_name : string;
  location_address : string
}.

(** The text of an item: the JSON of a user, of a location, of a list of
    recordings, or text that [JSON.parse] rejects. *)
Inductive Item : Type :=
| UserJson (u : User)
| LocationJson (l : Location)
| RecordingsJson (rs : list StorageService.JsonRecording)
| Unparseable (raw : string).

(** The items, and what the storage answers. Every method of this part
    makes one call to it: [failing] tells whether a write or a removal is
    rejected, [unreadable] whether a read is, each on its own. *)
Record AsyncStorage : Type := mkStore {
  items : gmap string Item;
  failing : bool;
  unreadable : bool
}.

(** [data ? JSON.parse(data) : null] inside [try]/[catch]: the parsed value,
    or [null] for a missing item, an empty text, a text that does not parse
    or a rejected read. *)
Definition readJson (key : string) (st : AsyncStorage) : option Item :=
  if unreadable st then None
  else match items st !! key with
       | Some (Unparseable _) => None
       | Some item => Some item
       | None => None
       end.

(** [setItem] / [removeItem] inside [try]/[catch]: a rejected call is
    logged and changes nothing. *)
Definition write (key : string) (item : Item) (st : AsyncStorage)
    : AsyncStorage :=
  if failing st then st
  else {| items := <[key := item]> (items st); failing := failing st;
          unreadable := unreadable st |}.

Definition remove (key : string) (st : AsyncStorage) : AsyncStorage :=
  if failing st then st
  else {| items := delete key (items st); failing := failing st;
          unreadable := unreadable st |}.

Definition saveUser (user : User) : AsyncStorage -> AsyncStorage :=
  write StorageService.USER_KEY (UserJson user).

Definition getUser : AsyncStorage -> option Item :=
  readJson StorageService.USER_KEY.

Definition removeUser : AsyncStorage -> AsyncStorage :=
  remove StorageService.USER_KEY.

Definition saveSelectedLocation (location : Location)
    : AsyncStorage -> AsyncStorage :=
  write StorageService.LOCATION_KEY (LocationJson location).

Definition getSelectedLocation : AsyncStorage -> option Item :=
  readJson StorageService.LOCATION_KEY.

(** [clearAllData()]: [multiRemove] of the three keys. *)
Definition clearAllData (st : AsyncStorage) : AsyncStorage :=
  if failing st then st
  else {| items := delete StorageService.RECORDINGS_KEY
                     (delete StorageService.LOCATION_KEY
                        (delete StorageService.USER_KEY (items st)));
          failing := failing st; unreadable := unreadable st |}.

Definition seller : User :=
  {| id := "1"; username := "admin"; password := "admin123";
     isLoggedIn := true |}.

Definition centre : Location :=
  {| location_id := "1"; location_name := "Магазин Центр";
     location_address := "ул. Ленина, 1" |}.

Definition blank : AsyncStorage :=
  {| items := ∅; failing := false; unreadable := false |}.

(** A storage that holds a user, answers reads and rejects every write and
    removal. *)
Definition readOnly : AsyncStorage :=
  {| items := {[StorageService.USER_KEY := UserJson seller]};
     failing := true; unreadable := false |}.

End UserStorage.

(** * Verified properties *)

(** ** The log buffer *)

Section LoggerFacts.
Import Logger.

Lemma slice_last_bounded {A} (n : nat) (arr : list A) :
  (0 < n)%nat -> (length (slice_last n arr) <= n)%nat.
Proof.
  intros Hn. destruct n as [|n]; [lia|].
  unfold slice_last. rewrite length_drop. lia.
Qed.

Lemma addLog_logs now lvl msg payload lg :
  logs (addLog now lvl msg payload lg) =
  slice_last maxLogs (logs lg ++ [mkLogEntry now lvl msg payload]).
Proof.
  unfold addLog. cbv zeta.
  destruct (Nat.ltb_spec maxLogs
              (length (logs lg ++ [mkLogEntry now lvl msg payload])))
    as [Hlt|Hle]; [reflexivity|].
  cbn [logs]. unfold slice_last, maxLogs in *.
  replace (_ - 100)%nat with 0%nat by lia. reflexivity.
Qed.

Lemma addLog_bounded now lvl msg payload lg :
  (length (logs (addLog now lvl msg payload lg)) <= maxLogs)%nat.
Proof.
  rewrite addLog_logs. apply slice_last_bounded. unfold maxLogs. lia.
Qed.

Lemma step_bounded lg c :
  (length (logs lg) <= maxLogs)%nat ->
  (length (logs (step lg c)) <= maxLogs)%nat.
Proof.
  intros Hlg. destruct c; simpl step;
    unfold info, warn, error; try apply addLog_bounded.
  unfold clearLogs, maxLogs; simpl. lia.
Qed.

Lemma run_bounded calls : forall lg,
  (length (logs lg) <= maxLogs)%nat ->
  (length (logs (run calls lg)) <= maxLogs)%nat.
Proof.
  unfold run. induction calls as [|c calls IH]; intros lg Hlg; simpl.
  - exact Hlg.
  - apply IH, step_bounded, Hlg.
Qed.

Lemma slice_last_snoc {A} (n : nat) (arr : list A) (x : A) :
  (0 < n)%nat ->
  slice_last n (slice_last n arr ++ [x]) = slice_last n (arr ++ [x]).
Proof.
  intros Hn. destruct n as [|n]; [lia|]. unfold slice_last.
  rewrite !drop_app, !length_app, !length_drop, drop_drop. simpl length.
  replace (length arr - (length arr - S n) + 1 - S n
           - (length arr - (length arr - S n)))%nat with 0%nat by lia.
  replace (length arr + 1 - S n - length arr)%nat with 0%nat by lia.
  f_equal. f_equal. lia.
Qed.

(** Whatever was logged, the buffer is the last [maxLogs] entries appended
    since the last clearing, in the order of the calls. *)
Lemma run_keeps_most_recent calls :
  getLogs (run calls create) = slice_last maxLogs (appended calls).
Proof.
  unfold getLogs, run, appended.
  induction calls as [|c calls IH] using rev_ind; [reflexivity|].
  rewrite !foldl_app. simpl foldl.
  destruct c; simpl step; unfold info, warn, error; simpl entryOf;
    try (rewrite addLog_logs, IH; apply slice_last_snoc;
         unfold maxLogs; lia).
  reflexivity.
Qed.

(** C6. Starting from the empty buffer, after any sequence of [info],
    [warn], [error] and [clearLogs] calls [getLogs] holds at most 100
    entries, namely the last 100 entries logged since the last clearing, in
    the order of the calls; and logging into a buffer that holds exactly 100
    entries drops the oldest one and nothing else: the result is the 99
    newer entries followed by the new entry, 100 in all. *)
Theorem log_buffer_bounded_evicts_oldest :
  (forall calls : list Call,
     (length (getLogs (run calls create)) <= 100)%nat /\
     getLogs (run calls create) = slice_last 100 (appended calls)) /\
  (forall (lg : Logger) (now : string) (lvl : Level) (msg : string)
          (payload : option string),
     length (getLogs lg) = 100%nat ->
     getLogs (addLog now lvl msg payload lg) =
       drop 1 (getLogs lg) ++ [mkLogEntry now lvl msg payload] /\
     length (getLogs (addLog now lvl msg payload lg)) = 100%nat).
Proof.
  split.
  - intros calls. split; [|apply run_keeps_most_recent].
    unfold getLogs. apply (run_bounded calls create).
    unfold maxLogs. simpl. lia.
  - intros lg now lvl msg payload Hfull. unfold getLogs in *.
    rewrite addLog_logs. unfold slice_last, maxLogs.
    rewrite length_app, Hfull. simpl length.
    replace (100 + 1 - 100)%nat with 1%nat by lia.
    rewrite drop_app, Hfull. simpl drop at 2.
    split; [reflexivity|].
    rewrite length_app, length_drop, Hfull. reflexivity.
Qed.

Lemma log_buffer_bounded_evicts_oldest_witness :
  length (getLogs fullBuffer) = 100%nat /\
  (getLogs (addLog "2025-06-12T10:00:01.000Z" ERROR "upload failed" None
              fullBuffer) =
     drop 1 (getLogs fullBuffer)
       ++ [mkLogEntry "2025-06-12T10:00:01.000Z" ERROR "upload failed" None] /\
   length (getLogs (addLog "2025-06-12T10:00:01.000Z" ERROR "upload failed"
                      None fullBuffer)) = 100%nat).
Proof.
  split; [reflexivity|].
  apply (proj2 log_buffer_bounded_evicts_oldest fullBuffer). reflexivity.
Defined.

End LoggerFacts.


(** ** Local storage of recordings *)

Section StorageFacts.
Import StorageService.

Lemma mapTime_mapTime {T U V} (f : T -> U) (g : U -> V) (r : RecordingOf T) :
  mapTime g (mapTime f r) = mapTime (g ∘ f) r.
Proof. destruct r as [? ? ? ? [e|] ? ? ? ?]; reflexivity. Qed.

Lemma mapTime_id {T} (f : T -> T) (r : RecordingOf T) :
  (forall t, f t = t) -> mapTime f r = r.
Proof.
  intros Hf. destruct r as [? ? ? ? [e|] ? ? ? ?]; unfold mapTime; simpl;
    by rewrite ?Hf.
Qed.

(** Text written by [JSON.stringify] reads back unchanged. *)
Lemma stringify_parsed (rs : list JsonRecording) :
  mapTime toJSON <$> (mapTime IsoText <$> rs) = rs.
Proof.
  induction rs as [|r rs IH]; [reflexivity|].
  rewrite !fmap_cons, IH, mapTime_mapTime. f_equal. by apply mapTime_id.
Qed.

Lemma throughJson_parsed (rs : list JsonRecording) :
  throughJson <$> (mapTime IsoText <$> rs) = mapTime IsoText <$> rs.
Proof.
  induction rs as [|r rs IH]; [reflexivity|].
  rewrite !fmap_cons, IH. unfold throughJson at 1.
  rewrite (mapTime_mapTime IsoText toJSON). f_equal. f_equal.
  by apply mapTime_id.
Qed.

(** The platform's answer to a call. *)
Lemma answer_items st : items (answer st).2 = items st.
Proof. by destruct st as [m [|rejected later]]. Qed.

Lemma answer_rejected st : (answer st).1 = rejects 0 st.
Proof. by destruct st as [m [|rejected later]]. Qed.

Lemma answer_rejections st :
  rejections (answer st).2 = drop 1 (rejections st).
Proof. by destruct st as [m [|rejected later]]. Qed.

Lemma rejects_answer n st : rejects n (answer st).2 = rejects (S n) st.
Proof.
  unfold rejects. rewrite answer_rejections.
  destruct (rejections st); [by destruct n|reflexivity].
Qed.

Lemma working_drop n (l : list bool) :
  existsb (fun rejected => rejected) l = false ->
  existsb (fun rejected => rejected) (drop n l) = false.
Proof.
  revert n. induction l as [|b l IH]; intros n Hl; [by destruct n|].
  destruct n as [|n]; [exact Hl|]. simpl in *.
  apply orb_false_iff in Hl as [_ Hl]. by apply IH.
Qed.

(** A storage that rejects nothing answers every call. *)
Lemma working_rejects n st : failing st = false -> rejects n st = false.
Proof.
  unfold failing, rejects. revert n.
  induction (rejections st) as [|b l IH]; intros n Hl; [by destruct n|].
  simpl in Hl. apply orb_false_iff in Hl as [-> Hl].
  destruct n as [|n]; [reflexivity|]. by apply IH.
Qed.

Lemma working_answer st :
  failing st = false -> failing (answer st).2 = false.
Proof. unfold failing. rewrite answer_rejections. apply working_drop. Qed.

Lemma readable_items st st' :
  items st = items st' -> readable st = readable st'.
Proof. unfold readable. by intros ->. Qed.

Lemma readRecordings_eq st :
  readRecordings st
  = (if rejects 0 st then [] else readable st, (answer st).2).
Proof.
  unfold readRecordings, getItem. rewrite <- answer_rejected.
  rewrite (readable_items st (answer st).2) by by rewrite answer_items.
  unfold readable. destruct (answer st) as [[] st']; simpl; [reflexivity|].
  by destruct (items st' !! RECORDINGS_KEY).
Qed.

Lemma getRecordings_eq st :
  getRecordings st = if rejects 0 st then [] else readable st.
Proof. unfold getRecordings. by rewrite readRecordings_eq. Qed.

Lemma getRecordings_working st :
  failing st = false -> getRecordings st = readable st.
Proof. intros Hok. by rewrite getRecordings_eq, working_rejects. Qed.

Lemma setItem_eq key value st :
  (setItem key value st).2
  = {| items := if rejects 0 st then items st
                else <[key := value]> (items st);
       rejections := drop 1 (rejections st) |}.
Proof.
  unfold setItem. rewrite <- answer_rejected, <- answer_rejections.
  rewrite <- (answer_items st).
  by destruct (answer st) as [[] [m l]].
Qed.

(** The whole effect of [saveRecording] and of [removeRecording]: the
    first answer decides what was read, the second whether anything is
    written. *)
Lemma saveRecording_eq r st :
  saveRecording r st
  = {| items :=
         if rejects 1 st then items st
         else <[RECORDINGS_KEY :=
                  JSON_stringify ((if rejects 0 st then [] else readable st)
                                  ++ [r])]> (items st);
       rejections := drop 2 (rejections st) |}.
Proof.
  unfold saveRecording. rewrite readRecordings_eq.
  transitivity
    (setItem RECORDINGS_KEY
       (JSON_stringify ((if rejects 0 st then [] else readable st) ++ [r]))
       (answer st).2).2.
  { by destruct (setItem _ _ _) as [[] ?]. }
  rewrite setItem_eq, rejects_answer, answer_items, answer_rejections.
  by rewrite drop_drop.
Qed.

Lemma removeRecording_eq rid st :
  removeRecording rid st
  = {| items :=
         if rejects 1 st then items st
         else <[RECORDINGS_KEY :=
                  JSON_stringify
                    (filter (fun r => id r <> rid)
                       (if rejects 0 st then [] else readable st))]>
                (items st);
       rejections := drop 2 (rejections st) |}.
Proof.
  unfold removeRecording. rewrite readRecordings_eq.
  transitivity
    (setItem RECORDINGS_KEY
       (JSON_stringify (filter (fun r => id r <> rid)
                          (if rejects 0 st then [] else readable st)))
       (answer st).2).2.
  { by destruct (setItem _ _ _) as [[] ?]. }
  rewrite setItem_eq, rejects_answer, answer_items, answer_rejections.
  by rewrite drop_drop.
Qed.

Lemma saveRecording_keeps_working r st :
  failing st = false -> failing (saveRecording r st) = false.
Proof.
  intros Hok. rewrite saveRecording_eq. unfold failing. simpl.
  by apply working_drop.
Qed.

Lemma removeRecording_keeps_working rid st :
  failing st = false -> failing (removeRecording rid st) = false.
Proof.
  intros Hok. rewrite removeRecording_eq. unfold failing. simpl.
  by apply working_drop.
Qed.

(** A read that is answered gives either nothing or parsed text. *)
Lemma readable_parsed st :
  exists rs, readable st = mapTime IsoText <$> rs.
Proof.
  unfold readable.
  destruct (items st !! RECORDINGS_KEY) as [[rs|raw]|]; simpl.
  - by exists rs.
  - destruct (negb _); by exists [].
  - by exists [].
Qed.

Lemma getRecordings_parsed st :
  exists rs, getRecordings st = mapTime IsoText <$> rs.
Proof.
  rewrite getRecordings_eq. destruct (rejects 0 st); [by exists []|].
  apply readable_parsed.
Qed.

Lemma readable_stored st rs :
  storedRecordings st = Some rs -> readable st = mapTime IsoText <$> rs.
Proof.
  unfold storedRecordings, readable. intros Hst.
  destruct (items st !! RECORDINGS_KEY) as [[rs'|raw]|]; simplify_eq.
  reflexivity.
Qed.

Lemma readable_unstored st :
  storedRecordings st = None -> readable st = [].
Proof.
  unfold storedRecordings, readable. intros Hst.
  destruct (items st !! RECORDINGS_KEY) as [[rs'|raw]|]; simplify_eq;
    [|reflexivity].
  simpl. by destruct (negb _).
Qed.

Lemma getRecordings_stored st rs :
  storedRecordings st = Some rs -> failing st = false ->
  getRecordings st = mapTime IsoText <$> rs.
Proof.
  intros Hst Hok. rewrite getRecordings_working by done.
  by apply readable_stored.
Qed.

Lemma readable_written (m : gmap string Text) rs l :
  readable {| items := <[RECORDINGS_KEY := JSON_stringify rs]> m;
              rejections := l |} = throughJson <$> rs.
Proof.
  unfold readable. simpl. rewrite lookup_insert_eq. simpl.
  induction rs as [|r rs IH]; [reflexivity|].
  rewrite !fmap_cons. by rewrite IH.
Qed.

Lemma readable_fixed st : throughJson <$> readable st = readable st.
Proof.
  destruct (readable_parsed st) as [rs ->]. apply throughJson_parsed.
Qed.

(** On a working store, [saveRecording] keeps what was readable and adds the
    recording as JSON renders it. *)
Lemma getRecordings_saveRecording r st :
  failing st = false ->
  getRecordings (saveRecording r st) = getRecordings st ++ [throughJson r].
Proof.
  intros Hok.
  rewrite getRecordings_working by by apply saveRecording_keeps_working.
  rewrite getRecordings_working by done.
  rewrite saveRecording_eq, !working_rejects by done.
  rewrite readable_written, fmap_app. simpl. by rewrite readable_fixed.
Qed.




Lemma filter_parsed (rid : string) (rs : list JsonRecording) :
  mapTime toJSON <$> filter (fun r => id r <> rid) (mapTime IsoText <$> rs)
  = filter (fun r => id r <> rid) rs.
Proof.
  induction rs as [|r rs IH]; [reflexivity|].
  rewrite fmap_cons, !filter_cons. simpl id.
  destruct (decide (id r <> rid)) as [Hne|Heq].
  - rewrite fmap_cons, IH, mapTime_mapTime. f_equal. by apply mapTime_id.
  - exact IH.
Qed.

Lemma filter_nothing {A} (P : A -> Prop) `{forall x, Decision (P x)}
    (l : list A) :
  (forall x, x ∈ l -> P x) -> filter P l = l.
Proof.
  induction l as [|x l IH]; intros Hall; [reflexivity|].
  rewrite filter_cons. destruct (decide (P x)) as [_|Hn].
  - f_equal. apply IH. intros y Hy. apply Hall. by right.
  - destruct Hn. apply Hall. by left.
Qed.

(** C10, as stated: after [removeRecording(id)] the stored list is the
    original without the entries that have that id. It fails when the
    storage rejects the write of the call: the rejection is caught, the
    entry stays in the stored list and is read back. *)
Lemma rejected_removal_keeps_the_entry :
  storedRecordings refusingWrite = Some [mapTime toJSON sampleRecording] /\
  storedRecordings (removeRecording (id sampleRecording) refusingWrite)
    <> Some (filter (fun r => id r <> id sampleRecording)
               [mapTime toJSON sampleRecording]) /\
  throughJson sampleRecording
    ∈ getRecordings (removeRecording (id sampleRecording) refusingWrite).
Proof.
  split; [reflexivity|]. rewrite removeRecording_eq. split.
  - intros Heq. vm_compute in Heq. discriminate.
  - rewrite getRecordings_eq. vm_compute. left.
Qed.

(** C10, amended. For a store whose recordings key holds the list [rs]:
    when the storage answers the read and accepts the write that
    [removeRecording(recordingId)] makes, the key holds afterwards the list
    [rs] without the entries whose id is [recordingId] (the remaining
    entries keep their order, an entry stays exactly when its id differs,
    and when no entry has that id the list is [rs] itself); when the write
    is rejected the items are left as they were; when the read is rejected
    and the write accepted the key holds the empty list. Items under other
    keys are never touched. *)
Theorem removeRecording_removes_matching_ids :
  forall (st : AsyncStorage) (rs : list JsonRecording) (recordingId : string),
    storedRecordings st = Some rs ->
    (rejects 0 st = false -> rejects 1 st = false ->
     storedRecordings (removeRecording recordingId st)
       = Some (filter (fun r => id r <> recordingId) rs) /\
     filter (fun r => id r <> recordingId) rs `sublist_of` rs /\
     (forall r, r ∈ filter (fun r => id r <> recordingId) rs
                <-> r ∈ rs /\ id r <> recordingId) /\
     ((forall r, r ∈ rs -> id r <> recordingId) ->
        storedRecordings (removeRecording recordingId st) = Some rs)) /\
    (rejects 1 st = true ->
     items (removeRecording recordingId st) = items st) /\
    (rejects 0 st = true -> rejects 1 st = false ->
     storedRecordings (removeRecording recordingId st) = Some []) /\
    (forall key, key <> RECORDINGS_KEY ->
       items (removeRecording recordingId st) !! key = items st !! key).
Proof.
  intros st rs rid Hst. rewrite removeRecording_eq. unfold storedRecordings.
  cbn [items]. split; [|split; [|split]].
  - intros -> ->. rewrite (readable_stored st rs Hst).
    unfold JSON_stringify. rewrite filter_parsed, lookup_insert_eq.
    split; [reflexivity|]. split; [apply sublist_filter|].
    split; [intros r; rewrite list_elem_of_filter; tauto|].
    intros Hnone. f_equal. by apply filter_nothing.
  - by intros ->.
  - intros -> ->. by rewrite lookup_insert_eq.
  - intros key Hkey. destruct (rejects 1 st); [reflexivity|].
    by rewrite lookup_insert_ne.
Qed.

Lemma removeRecording_removes_matching_ids_witness :
  storedRecordings (saveRecording sampleRecording emptyStore)
    = Some [mapTime toJSON sampleRecording] /\
  rejects 0 (saveRecording sampleRecording emptyStore) = false /\
  rejects 1 (saveRecording sampleRecording emptyStore) = false /\
  storedRecordings (removeRecording "1749657904000"
                      (saveRecording sampleRecording emptyStore))
    = Some [].
Proof.
  split; [reflexivity|]. split; [reflexivity|]. split; [reflexivity|].
  apply (proj1 (removeRecording_removes_matching_ids
                  (saveRecording sampleRecording emptyStore)
                  [mapTime toJSON sampleRecording] "1749657904000"
                  eq_refl));
    reflexivity.
Defined.

End StorageFacts.


(** ** The recording session *)

Section AudioFacts.
Import AudioService.

Lemma startRecording_sessions env svc pf :
  live pf = sessionsOf svc ->
  let '(_, svc', pf') := startRecording env svc pf in
  live pf' = sessionsOf svc'.
Proof.
  intros Hinv. unfold startRecording.
  destruct (isRecording svc) eqn:Hrec; [exact Hinv|].
  destruct (negb (requestPermissions env)); [exact Hinv|].
  destruct (audioModeReply env); [|exact Hinv].
  unfold createAsync. destruct (createReply env); [|exact Hinv].
  simpl. rewrite Hinv. unfold sessionsOf. by rewrite Hrec.
Qed.

Lemma stopRecording_sessions reply svc pf :
  live pf = sessionsOf svc ->
  let '(_, svc', pf') := stopRecording reply svc pf in
  live pf' = sessionsOf svc'.
Proof.
  intros Hinv. unfold stopRecording.
  destruct (isRecording svc) eqn:Hrec; [|exact Hinv].
  destruct (recording svc) as [rec|] eqn:Hslot; [|exact Hinv].
  unfold stopAndUnloadAsync. destruct reply; [|exact Hinv].
  simpl. rewrite Hinv. unfold sessionsOf. rewrite Hrec, Hslot.
  rewrite filter_cons. by destruct (decide (session rec <> session rec)).
Qed.

Lemma run_sessions calls :
  live (run calls).2 = sessionsOf (run calls).1.
Proof.
  unfold run. induction calls as [|c calls IH] using rev_ind; [reflexivity|].
  rewrite foldl_app. simpl foldl.
  destruct (foldl step (create, idle) calls) as [svc pf]. simpl in IH.
  destruct c as [env|reply]; simpl step.
  - pose proof (startRecording_sessions env svc pf IH) as Hstep.
    by destruct (startRecording env svc pf) as [[? ?] ?].
  - pose proof (stopRecording_sessions reply svc pf IH) as Hstep.
    by destruct (stopRecording reply svc pf) as [[? ?] ?].
Qed.

(** C7. While a recording is active ([isRecording = true]),
    [startRecording] returns [null] and leaves the fields of the service and
    the platform's sessions as they were; and after any sequence of
    [startRecording] and [stopRecording] calls on a new service, whatever
    the platform answers, at most one session is live. *)
Theorem startRecording_while_recording_is_noop :
  (forall (env : StartReplies) (svc : AudioService) (pf : Platform),
     isRecording svc = true ->
     startRecording env svc pf = (None, svc, pf)) /\
  (forall calls : list Call, (length (live (run calls).2) <= 1)%nat).
Proof.
  split.
  - intros env svc pf Hrec. unfold startRecording. by rewrite Hrec.
  - intros calls. rewrite run_sessions. unfold sessionsOf.
    destruct (isRecording _); [destruct (recording _)|]; simpl; lia.
Qed.

Lemma startRecording_while_recording_is_noop_witness :
  isRecording (run [CStart permissive]).1 = true /\
  startRecording permissive (run [CStart permissive]).1
                 (run [CStart permissive]).2
  = (None, (run [CStart permissive]).1, (run [CStart permissive]).2).
Proof.
  split; [reflexivity|].
  apply (proj1 startRecording_while_recording_is_noop). reflexivity.
Defined.

End AudioFacts.


(** ** Login of the client that mirrors its token *)

Section StoredTokenFacts.
Import Js Eff StoredTokenApi.

(** C9. [login] always completes with a value. When the underlying request
    throws [e], the value is [{ success: false, message }] with the message
    of [e] (or the fixed text when [e] is not an [Error]) and the fields are
    untouched. The token changes only when the server answered with a
    success status and a body whose [success] is true and whose [token] is
    a non-empty string, and then becomes that token; a login that returns
    [success = false] leaves the token as it was. *)
Theorem login_never_throws_and_guards_token :
  forall (username password : string)
         (reply : Outcome (Http.Response LoginResult)) (api : ApiService),
    (exists r, outcome (login username password reply) api = Return r) /\
    (forall e,
       outcome (makeRequest "POST" "/api/auth/login" reply) api = Throw e ->
       outcome (login username password reply) api =
         Return {| success := false; user := None; token := None;
                   message := Some (messageOr "Ошибка авторизации" e) |} /\
       final (login username password reply) api = api) /\
    (authToken (final (login username password reply) api) <> authToken api ->
     exists response data,
       reply = Return response /\ Http.ok response = true /\
       Http.json response = Some data /\
       success data = true /\ truthy (token data) = true /\
       authToken (final (login username password reply) api) = token data) /\
    (forall r,
       outcome (login username password reply) api = Return r ->
       success r = false ->
       authToken (final (login username password reply) api) = authToken api).
Proof.
  intros username password reply api.
  unfold outcome, final, login, makeRequest, setAuthToken, Http.parse, Http.ok,
    bind, try, get, put, await, lift, throw, ret.
  destruct reply as [response|e0]; simpl.
  2:{ repeat split; eauto; congruence. }
  destruct response as [st body [data|]]; simpl.
  2:{ repeat split; eauto; try congruence. by simplify_eq. }
  destruct ((200 <=? st)%Z && (st <? 300)%Z) eqn:Hok; simpl.
  2:{ repeat split; eauto; try congruence. by simplify_eq. }
  destruct data as [succ usr [tok|] msg]; destruct succ; simpl;
    try destruct (negb (String.eqb tok "")) eqn:Htok; simpl;
    repeat split; eauto; try congruence.
  - intros _. eexists _, _. repeat split; eauto.
  - intros r [= <-]. discriminate.
Qed.

Lemma login_never_throws_and_guards_token_witness :
  (outcome (makeRequest "POST" "/api/auth/login" networkDown) loggedIn
     = Throw (ErrorObj "Network request failed") /\
   outcome (login "admin" "admin123" networkDown) loggedIn =
     Return {| success := false; user := None; token := None;
               message := Some "Network request failed" |} /\
   final (login "admin" "admin123" networkDown) loggedIn = loggedIn) /\
  (authToken (final (login "admin" "admin123" granted) loggedIn)
     <> authToken loggedIn /\
   exists response data,
     granted = Return response /\ Http.ok response = true /\
     Http.json response = Some data /\
     success data = true /\ truthy (token data) = true /\
     authToken (final (login "admin" "admin123" granted) loggedIn)
       = token data).
Proof.
  split.
  - split; [reflexivity|].
    apply (proj1 (proj2 (login_never_throws_and_guards_token
                           "admin" "admin123" networkDown loggedIn))
             (ErrorObj "Network request failed")).
    reflexivity.
  - assert (Hnew : authToken (final (login "admin" "admin123" granted) loggedIn)
                   <> authToken loggedIn) by discriminate.
    split; [exact Hnew|].
    apply (proj1 (proj2 (proj2 (login_never_throws_and_guards_token
                                  "admin" "admin123" granted loggedIn)))).
    exact Hnew.
Defined.

End StoredTokenFacts.

(** ** The upload client with retries *)

Section ApiFacts.
Import Js Eff ApiService.

Ltac unfold_eff :=
  unfold outcome, final, trace, bind, try, get, put, emit, await, lift,
    throw, ret.

Ltac quiet_case := repeat split; auto; cbn; lia.

Lemma attemptFetch_quiet w recordingData : Quiet (attemptFetch w recordingData).
Proof.
  intros attempt api. unfold attemptFetch, healthCheck. unfold_eff. simpl.
  destruct (healthReply w attempt) as [probe|e]; simpl; [|quiet_case].
  destruct (negb (Http.ok probe)); simpl; [quiet_case|].
  destruct (uploadReply w attempt) as [response|e]; simpl; [|quiet_case].
  destruct (negb (Http.ok response)); simpl; [quiet_case|].
  destruct (Http.parse response); quiet_case.
Qed.

Lemma attemptExpo_quiet w recordingData : Quiet (attemptExpo w recordingData).
Proof.
  intros attempt api. unfold attemptExpo, healthCheck. unfold_eff. simpl.
  destruct (String.eqb (uri recordingData) ""
            || negb (String.prefix "file://" (uri recordingData)));
    simpl; [quiet_case|].
  destruct (healthReply w attempt) as [probe|e]; simpl; [|quiet_case].
  destruct (negb (Http.ok probe)); simpl; [quiet_case|].
  destruct (uploadReply w attempt) as [response|e]; simpl; [|quiet_case].
  destruct ((200 <=? Http.status response)%Z && (Http.status response <? 300)%Z);
    simpl; [|quiet_case].
  destruct (Http.parse response); quiet_case.
Qed.

Lemma uploadAttempt_quiet rev w recordingData :
  Quiet (uploadAttempt rev w recordingData).
Proof. destruct rev; [apply attemptFetch_quiet | apply attemptExpo_quiet]. Qed.

Lemma pacing_app t1 t2 : pacing (t1 ++ t2) = pacing t1 ++ pacing t2.
Proof. apply List.filter_app. Qed.

Lemma loginCalls_app t1 t2 :
  loginCalls (t1 ++ t2) = (loginCalls t1 + loginCalls t2)%nat.
Proof. unfold loginCalls. by rewrite List.filter_app, length_app. Qed.

Lemma uploadsSent_app t1 t2 :
  uploadsSent (t1 ++ t2) = (uploadsSent t1 + uploadsSent t2)%nat.
Proof. unfold uploadsSent. by rewrite List.filter_app, length_app. Qed.

Lemma attemptsMade_pacing t : attemptsMade (pacing t) = attemptsMade t.
Proof.
  unfold attemptsMade, pacing. induction t as [|e t IH]; [reflexivity|].
  destruct e; simpl; by rewrite ?IH.
Qed.

Lemma delays_pacing t : delays (pacing t) = delays t.
Proof.
  unfold pacing. induction t as [|e t IH]; [reflexivity|].
  destruct e; simpl; by rewrite ?IH.
Qed.

(** One turn of the loop, as a run. *)
Lemma retryLoop_cons body attempt later lastError api :
  retryLoop body (attempt :: later) lastError api =
  match body attempt api with
  | (Return result, api1, t1) => (Return result, api1, t1 ++ [])
  | (Throw error, api1, t1) =>
      let '(end_, api2, t2) := retryLoop body later (Some error) api1 in
      (end_, api2,
       t1 ++ (if (attempt <? maxRetries)%nat
              then [Sleep (Z.of_nat attempt * 2000)] else []) ++ t2)
  end.
Proof.
  simpl retryLoop. unfold_eff.
  destruct (body attempt api) as [[[result|error] api1] t1]; [reflexivity|].
  destruct (attempt <? maxRetries)%nat;
    by destruct (retryLoop body later (Some error) api1) as [[? ?] ?].
Qed.

(** The loop and its summary agree; the loop neither changes the token nor
    logs in, and sends the file at most once per turn. *)
Lemma retryLoop_summary body (Hq : Quiet body) :
  forall (attempts : list nat) (lastError : option Thrown) (api : ApiService),
    (outcome (retryLoop body attempts lastError) api,
     pacing (trace (retryLoop body attempts lastError) api))
      = loopSummary (fun i => outcome (body i) api) attempts lastError /\
    final (retryLoop body attempts lastError) api = api /\
    loginCalls (trace (retryLoop body attempts lastError) api) = 0%nat /\
    (uploadsSent (trace (retryLoop body attempts lastError) api)
     <= length attempts)%nat.
Proof.
  induction attempts as [|attempt later IH]; intros lastError api.
  - cbn. repeat split; lia.
  - destruct (Hq attempt api) as (Hfinal & Hpace & Hlogin & Hsent & _).
    specialize (IH (Some (match outcome (body attempt) api with
                          | Throw e => e | Return _ => NonError "" end)) api).
    revert Hfinal Hpace Hlogin Hsent IH. simpl loopSummary.
    unfold outcome, final, trace. rewrite retryLoop_cons.
    destruct (body attempt api) as [[[result|error] api1] t1];
      cbn [fst snd length]; intros -> Hpace Hlogin Hsent IH.
    + rewrite app_nil_r, Hpace, Hlogin. repeat split; lia.
    + destruct (retryLoop body later (Some error) api) as [[end_ api2] t2].
      cbn [fst snd] in *. destruct IH as (<- & -> & Hlog & Hup).
      rewrite !pacing_app, !loginCalls_app, !uploadsSent_app, Hpace, Hlogin,
        Hlog.
      destruct (attempt <? maxRetries)%nat; repeat split; cbn; lia.
Qed.

Lemma loopSummary_ext f g attempts :
  (forall i, f i = g i) ->
  forall lastError,
    loopSummary f attempts lastError = loopSummary g attempts lastError.
Proof.
  intros Hfg. induction attempts as [|attempt later IH]; intros lastError;
    [reflexivity|].
  simpl. rewrite Hfg. destruct (g attempt); [reflexivity|]. by rewrite IH.
Qed.

(** The implicit login: one request with the fallback credentials, then
    either the way is free or the upload is given up. *)
Lemma implicitLogin_run rev w api :
  truthy (token api) = false ->
  trace (implicitLogin rev w) api = [loginRequest rev] /\
  if loginGranted w
  then outcome (implicitLogin rev w) api = Return None
  else exists reason,
         outcome (implicitLogin rev w) api
         = Return (Some (authorizationFailure reason)).
Proof.
  intros Htok. unfold implicitLogin, loginRequest, loginGranted, login, request,
    setToken, bearer, authorizationFailure, Http.parse.
  destruct (fallbackCredentials rev) as [username password].
  unfold_eff. simpl. rewrite Htok.
  destruct (loginReply w) as [response|e]; simpl;
    [|split; [reflexivity | by eexists]].
  destruct (Http.ok response); simpl; [|split; [reflexivity | by eexists]].
  destruct (Http.json response) as [[granted text tok]|]; simpl;
    [|split; [reflexivity | by eexists]].
  destruct granted; simpl; [|split; [reflexivity | by eexists]].
  by destruct (truthy tok).
Qed.

(** [uploadAudio] is the login gate followed, when the gate lets it
    through, by the retry loop. *)
Lemma uploadAudio_run rev w recordingData api :
  exists api1,
    trace (uploadAudio rev w recordingData) api =
      (if truthy (token api) then [] else [loginRequest rev])
      ++ (if authorized w api
          then trace (retryLoop (uploadAttempt rev w recordingData)
                        (seq 1 maxRetries) None) api1
          else []) /\
    if authorized w api
    then outcome (uploadAudio rev w recordingData) api
         = outcome (retryLoop (uploadAttempt rev w recordingData)
                      (seq 1 maxRetries) None) api1
    else exists reason,
           outcome (uploadAudio rev w recordingData) api
           = Return (authorizationFailure reason).
Proof.
  pose proof (implicitLogin_run rev w api) as Hgate.
  unfold uploadAudio, authorized.
  set (loop := retryLoop _ _ _) in *. set (gate := implicitLogin rev w) in *.
  clearbody loop gate. unfold outcome, final, trace in *.
  unfold bind, get, ret.
  destruct (truthy (token api)) eqn:Htok; simpl.
  - exists api. by destruct (loop api) as [[end_ api2] t2].
  - destruct (Hgate eq_refl) as [Htrace Hend]. revert Htrace Hend.
    destruct (gate api) as [[go api1] t1]. cbn [fst snd]. intros -> Hend.
    exists api1. destruct (loginGranted w).
    + subst go. by destruct (loop api1) as [[end_ api2] t2].
    + destruct Hend as [reason ->]. cbn. by eauto.
Qed.

Lemma authorized_run rev w recordingData api :
  authorized w api = true ->
  (outcome (uploadAudio rev w recordingData) api,
   pacing (trace (uploadAudio rev w recordingData) api))
    = loopSummary (fun i => outcome (uploadAttempt rev w recordingData i) api)
                  (seq 1 maxRetries) None /\
  loginCalls (trace (uploadAudio rev w recordingData) api)
    = (if truthy (token api) then 0 else 1)%nat.
Proof.
  intros Hauth.
  pose proof (uploadAttempt_quiet rev w recordingData) as Hq.
  destruct (uploadAudio_run rev w recordingData api) as (api1 & -> & Hend).
  rewrite Hauth in *. rewrite Hend.
  destruct (retryLoop_summary _ Hq (seq 1 maxRetries) None api1)
    as (Hsum & _ & Hlog & _).
  rewrite pacing_app, loginCalls_app, Hlog. split.
  - transitivity
      (outcome (retryLoop (uploadAttempt rev w recordingData)
                  (seq 1 maxRetries) None) api1,
       pacing (trace (retryLoop (uploadAttempt rev w recordingData)
                        (seq 1 maxRetries) None) api1)).
    + by destruct (truthy (token api)).
    + rewrite Hsum. apply loopSummary_ext. intros i. apply Hq.
  - by destruct (truthy (token api)).
Qed.

(** Without a token the run opens with the login request and makes no
    other; when the login does not go through nothing follows it. *)
Lemma tokenless_run rev w recordingData api :
  truthy (token api) = false ->
  exists rest,
    trace (uploadAudio rev w recordingData) api = loginRequest rev :: rest /\
    loginCalls rest = 0%nat /\
    (loginGranted w = false ->
     rest = [] /\
     exists reason,
       outcome (uploadAudio rev w recordingData) api
       = Return (authorizationFailure reason)).
Proof.
  intros Htok.
  pose proof (uploadAttempt_quiet rev w recordingData) as Hq.
  destruct (uploadAudio_run rev w recordingData api) as (api1 & -> & Hend).
  unfold authorized in *. rewrite Htok in *. simpl in *.
  destruct (loginGranted w).
  - destruct (retryLoop_summary _ Hq (seq 1 maxRetries) None api1)
      as (_ & _ & Hlog & _).
    eexists. by repeat split.
  - exists []. by repeat split.
Qed.

(** No run sends the file more than three times. *)
Lemma uploads_bounded rev w recordingData api :
  (uploadsSent (trace (uploadAudio rev w recordingData) api) <= 3)%nat.
Proof.
  pose proof (uploadAttempt_quiet rev w recordingData) as Hq.
  destruct (uploadAudio_run rev w recordingData api) as (api1 & -> & _).
  rewrite uploadsSent_app.
  assert (uploadsSent (if truthy (token api) then [] else [loginRequest rev])
          = 0%nat) as -> by by destruct (truthy (token api)).
  destruct (authorized w api); [|cbn; lia].
  destruct (retryLoop_summary _ Hq (seq 1 maxRetries) None api1)
    as (_ & _ & _ & Hup).
  exact Hup.
Qed.

(** C4. A call made without a token (none, or the empty string) opens with
    one login request carrying the fallback credentials of the revision and
    makes no other login request, so the request precedes every upload
    attempt; when that login fails or throws, nothing follows the request
    (no upload attempt is made) and the call returns a result with
    [success = false] whose message starts with the authorization-error
    text. A call made with a token makes no login request. *)
Theorem implicit_login_precedes_upload :
  forall (rev : Revision) (w : World) (recordingData : RecordingData)
         (api : ApiService),
    (truthy (token api) = false ->
     exists rest,
       trace (uploadAudio rev w recordingData) api = loginRequest rev :: rest /\
       loginCalls (trace (uploadAudio rev w recordingData) api) = 1%nat /\
       (loginGranted w = false ->
        rest = [] /\
        attemptsMade (trace (uploadAudio rev w recordingData) api) = 0%nat /\
        exists reason,
          outcome (uploadAudio rev w recordingData) api
          = Return (authorizationFailure reason))) /\
    (truthy (token api) = true ->
     loginCalls (trace (uploadAudio rev w recordingData) api) = 0%nat).
Proof.
  intros rev w recordingData api. split.
  - intros Htok.
    destruct (tokenless_run rev w recordingData api Htok)
      as (rest & Htrace & Hrest & Hdenied).
    exists rest. rewrite Htrace. split; [reflexivity|]. split.
    + unfold loginCalls in *. simpl. by rewrite Hrest.
    + intros Hno. destruct (Hdenied Hno) as [-> Hend]. by repeat split.
  - intros Htok.
    destruct (authorized_run rev w recordingData api) as [_ Hlog].
    + unfold authorized. by rewrite Htok.
    + by rewrite Hlog, Htok.
Qed.

Lemma implicit_login_precedes_upload_witness :
  truthy (token withoutToken) = false /\
  loginGranted offline = false /\
  trace (uploadAudio ExpoUpload offline sampleData) withoutToken
    = [loginRequest ExpoUpload] /\
  truthy (token withToken) = true /\
  loginCalls (trace (uploadAudio ExpoUpload offline sampleData) withToken)
    = 0%nat.
Proof.
  split; [reflexivity|]. split; [reflexivity|].
  destruct (proj1 (implicit_login_precedes_upload ExpoUpload offline
                     sampleData withoutToken) eq_refl)
    as (rest & Htrace & _ & Hdenied).
  destruct (Hdenied eq_refl) as [-> _].
  split; [exact Htrace|]. split; [reflexivity|].
  apply (proj2 (implicit_login_precedes_upload ExpoUpload offline
                  sampleData withToken)).
  reflexivity.
Defined.

(** The three turns of the loop, spelled out. *)
Lemma loopSummary_three (f : nat -> Outcome UploadResult) :
  loopSummary f (seq 1 maxRetries) None =
  match f 1%nat with
  | Return r => (Return r, [AttemptStarted 1])
  | Throw _ =>
      match f 2%nat with
      | Return r => (Return r, [AttemptStarted 1; Sleep 2000; AttemptStarted 2])
      | Throw _ =>
          (f 3%nat,
           [AttemptStarted 1; Sleep 2000; AttemptStarted 2; Sleep 4000;
            AttemptStarted 3])
      end
  end.
Proof. simpl. by destruct (f 1%nat), (f 2%nat), (f 3%nat). Qed.

Lemma failed_attempt (o : Outcome UploadResult) :
  returned o = false -> exists e, o = Throw e.
Proof. destruct o as [r|e]; [discriminate | by exists e]. Qed.

(** What a caller and an observer see of an authorized upload. *)
Lemma authorized_three rev w recordingData api :
  authorized w api = true ->
  (outcome (uploadAudio rev w recordingData) api,
   pacing (trace (uploadAudio rev w recordingData) api)) =
  match outcome (uploadAttempt rev w recordingData 1) api with
  | Return r => (Return r, [AttemptStarted 1])
  | Throw _ =>
      match outcome (uploadAttempt rev w recordingData 2) api with
      | Return r => (Return r, [AttemptStarted 1; Sleep 2000; AttemptStarted 2])
      | Throw _ =>
          (outcome (uploadAttempt rev w recordingData 3) api,
           [AttemptStarted 1; Sleep 2000; AttemptStarted 2; Sleep 4000;
            AttemptStarted 3])
      end
  end.
Proof.
  intros Hauth.
  destruct (authorized_run rev w recordingData api Hauth) as [-> _].
  apply loopSummary_three.
Qed.

(** C2. No call starts more than 3 upload attempts or sends the file more
    than 3 times. An authorized upload whose three attempts all fail starts
    exactly 3 attempts and then completes with a failure (the exception of
    the last attempt); an upload whose attempt [k] is the first to succeed
    starts exactly [k] attempts and returns the result of that attempt. *)
Theorem upload_attempts_bounded_by_three :
  forall (rev : Revision) (w : World) (recordingData : RecordingData)
         (api : ApiService),
    (attemptsMade (trace (uploadAudio rev w recordingData) api) <= 3)%nat /\
    (uploadsSent (trace (uploadAudio rev w recordingData) api) <= 3)%nat /\
    (authorized w api = true ->
     ((forall i, (1 <= i <= 3)%nat -> attemptFails rev w recordingData api i) ->
      attemptsMade (trace (uploadAudio rev w recordingData) api) = 3%nat /\
      returned (outcome (uploadAudio rev w recordingData) api) = false) /\
     (forall (k : nat) (result : UploadResult),
        (1 <= k <= 3)%nat ->
        (forall i, (1 <= i < k)%nat -> attemptFails rev w recordingData api i) ->
        outcome (uploadAttempt rev w recordingData k) api = Return result ->
        attemptsMade (trace (uploadAudio rev w recordingData) api) = k /\
        outcome (uploadAudio rev w recordingData) api = Return result)).
Proof.
  intros rev w recordingData api.
  assert (Hthree : authorized w api = true -> _)
    by exact (authorized_three rev w recordingData api).
  split; [|split; [apply uploads_bounded|];
           intros Hauth; specialize (Hthree Hauth); split].
  - rewrite <- attemptsMade_pacing.
    destruct (authorized w api) eqn:Hauth.
    + specialize (Hthree eq_refl).
      destruct (outcome (uploadAttempt rev w recordingData 1) api);
        [|destruct (outcome (uploadAttempt rev w recordingData 2) api)];
        injection Hthree as _ ->; cbn; lia.
    + unfold authorized in Hauth. apply orb_false_iff in Hauth as [Htok Hno].
      destruct (tokenless_run rev w recordingData api Htok)
        as (rest & -> & _ & Hdenied).
      destruct (Hdenied Hno) as [-> _]. cbn. lia.
  - intros Hfail. rewrite <- attemptsMade_pacing.
    destruct (failed_attempt _ (Hfail 1%nat ltac:(lia))) as [e1 H1].
    destruct (failed_attempt _ (Hfail 2%nat ltac:(lia))) as [e2 H2].
    destruct (failed_attempt _ (Hfail 3%nat ltac:(lia))) as [e3 H3].
    rewrite H1, H2, H3 in Hthree. by injection Hthree as -> ->.
  - intros k result Hk Hfail Hgood. rewrite <- attemptsMade_pacing.
    assert (k = 1 \/ k = 2 \/ k = 3)%nat as [->|[->| ->]] by lia.
    + rewrite Hgood in Hthree. by injection Hthree as -> ->.
    + destruct (failed_attempt _ (Hfail 1%nat ltac:(lia))) as [e1 H1].
      rewrite H1, Hgood in Hthree. by injection Hthree as -> ->.
    + destruct (failed_attempt _ (Hfail 1%nat ltac:(lia))) as [e1 H1].
      destruct (failed_attempt _ (Hfail 2%nat ltac:(lia))) as [e2 H2].
      rewrite H1, H2, Hgood in Hthree. by injection Hthree as -> ->.
Qed.

Lemma offline_attempts_fail rev api :
  forall i, (1 <= i <= 3)%nat -> attemptFails rev offline sampleData api i.
Proof. intros i _. by destruct rev. Qed.

Lemma upload_attempts_bounded_by_three_witness :
  (authorized offline withToken = true /\
   (forall i, (1 <= i <= 3)%nat ->
      attemptFails ExpoUpload offline sampleData withToken i) /\
   attemptsMade (trace (uploadAudio ExpoUpload offline sampleData) withToken)
     = 3%nat /\
   returned (outcome (uploadAudio ExpoUpload offline sampleData) withToken)
     = false) /\
  (authorized recovering withToken = true /\
   outcome (uploadAttempt ExpoUpload recovering sampleData 3) withToken
     = Return stored /\
   attemptsMade (trace (uploadAudio ExpoUpload recovering sampleData) withToken)
     = 3%nat /\
   outcome (uploadAudio ExpoUpload recovering sampleData) withToken
     = Return stored).
Proof.
  split.
  - split; [reflexivity|]. split; [apply offline_attempts_fail|].
    apply (proj1 (proj2 (proj2 (upload_attempts_bounded_by_three ExpoUpload
                                  offline sampleData withToken)) eq_refl)).
    apply offline_attempts_fail.
  - split; [reflexivity|]. split; [reflexivity|].
    apply (proj2 (proj2 (proj2 (upload_attempts_bounded_by_three ExpoUpload
                                  recovering sampleData withToken)) eq_refl)
             3%nat stored).
    + lia.
    + intros i Hi. assert (i = 1 \/ i = 2)%nat as [->| ->] by lia;
        reflexivity.
    + reflexivity.
Defined.

(** C3. In an authorized upload whose attempts 1 and 2 fail, the run is:
    attempt 1, a pause of 2000 ms, attempt 2, a pause of 4000 ms, attempt 3,
    and nothing after it, whether the third attempt succeeds or not; so
    exactly two pauses are made, of [i * 2000] ms after attempt [i], both
    before the third attempt. When the third attempt succeeds its result is
    what [uploadAudio] returns. *)
Theorem two_backoffs_before_third_attempt :
  forall (rev : Revision) (w : World) (recordingData : RecordingData)
         (api : ApiService),
    authorized w api = true ->
    attemptFails rev w recordingData api 1 ->
    attemptFails rev w recordingData api 2 ->
    pacing (trace (uploadAudio rev w recordingData) api)
      = [AttemptStarted 1; Sleep (1 * 2000); AttemptStarted 2;
         Sleep (2 * 2000); AttemptStarted 3] /\
    delays (trace (uploadAudio rev w recordingData) api) = [2000; 4000]%Z /\
    (forall result,
       outcome (uploadAttempt rev w recordingData 3) api = Return result ->
       outcome (uploadAudio rev w recordingData) api = Return result).
Proof.
  intros rev w recordingData api Hauth Hfail1 Hfail2.
  pose proof (authorized_three rev w recordingData api Hauth) as Hthree.
  destruct (failed_attempt _ Hfail1) as [e1 H1].
  destruct (failed_attempt _ Hfail2) as [e2 H2].
  rewrite H1, H2 in Hthree. injection Hthree as Hend Hpace.
  split; [exact Hpace|]. split.
  - by rewrite <- delays_pacing, Hpace.
  - intros result H3. by rewrite Hend.
Qed.

Lemma two_backoffs_before_third_attempt_witness :
  authorized recovering withToken = true /\
  attemptFails FetchUpload recovering sampleData withToken 1 /\
  attemptFails FetchUpload recovering sampleData withToken 2 /\
  delays (trace (uploadAudio FetchUpload recovering sampleData) withToken)
    = [2000; 4000]%Z /\
  outcome (uploadAudio FetchUpload recovering sampleData) withToken
    = Return stored.
Proof.
  split; [reflexivity|]. split; [reflexivity|]. split; [reflexivity|].
  destruct (two_backoffs_before_third_attempt FetchUpload recovering
              sampleData withToken eq_refl eq_refl eq_refl)
    as (_ & Hdelays & Hend).
  split; [exact Hdelays|]. apply Hend. reflexivity.
Defined.

(** C1, as stated: when every attempt fails the caller gets a result object
    with [success = false]. With the server unreachable the call ends in an
    exception instead. *)
Lemma exhausted_retries_do_not_return :
  (forall i, (1 <= i <= 3)%nat ->
     attemptFails ExpoUpload offline sampleData withToken i) /\
  failureResult (outcome (uploadAudio ExpoUpload offline sampleData) withToken)
    = false /\
  outcome (uploadAudio ExpoUpload offline sampleData) withToken
    = Throw (ErrorObj "Network request failed").
Proof.
  split; [apply offline_attempts_fail|].
  assert (Hend : outcome (uploadAudio ExpoUpload offline sampleData) withToken
                 = Throw (ErrorObj "Network request failed"))
    by (vm_compute; reflexivity).
  rewrite Hend. by split.
Qed.

(** C1, amended. When an authorized upload fails in all three attempts,
    [uploadAudio] throws the exception of the last attempt to its caller;
    it returns no result object. *)
Theorem exhausted_retries_throw_last_error :
  forall (rev : Revision) (w : World) (recordingData : RecordingData)
         (api : ApiService),
    authorized w api = true ->
    (forall i, (1 <= i <= 3)%nat -> attemptFails rev w recordingData api i) ->
    exists lastError,
      outcome (uploadAttempt rev w recordingData 3) api = Throw lastError /\
      outcome (uploadAudio rev w recordingData) api = Throw lastError /\
      failureResult (outcome (uploadAudio rev w recordingData) api) = false.
Proof.
  intros rev w recordingData api Hauth Hfail.
  pose proof (authorized_three rev w recordingData api Hauth) as Hthree.
  destruct (failed_attempt _ (Hfail 1%nat ltac:(lia))) as [e1 H1].
  destruct (failed_attempt _ (Hfail 2%nat ltac:(lia))) as [e2 H2].
  destruct (failed_attempt _ (Hfail 3%nat ltac:(lia))) as [e3 H3].
  rewrite H1, H2 in Hthree. injection Hthree as Hend _.
  exists e3. rewrite Hend, H3. by repeat split.
Qed.

Lemma exhausted_retries_throw_last_error_witness :
  authorized offline withToken = true /\
  (forall i, (1 <= i <= 3)%nat ->
     attemptFails FetchUpload offline sampleData withToken i) /\
  exists lastError,
    outcome (uploadAttempt FetchUpload offline sampleData 3) withToken
      = Throw lastError /\
    outcome (uploadAudio FetchUpload offline sampleData) withToken
      = Throw lastError /\
    failureResult (outcome (uploadAudio FetchUpload offline sampleData)
                     withToken) = false.
Proof.
  split; [reflexivity|]. split; [apply offline_attempts_fail|].
  apply (exhausted_retries_throw_last_error FetchUpload offline sampleData
           withToken eq_refl).
  apply offline_attempts_fail.
Defined.

(** C5, as stated: an attempt answered with a status in [200, 300) counts
    as a success even when the body is not JSON. With a server that answers
    200 and a plain text body, the attempt of [uploadAudio] fails and the
    whole upload ends in an exception; and [uploadRecording] reports a
    failure for a 204 answer. *)
Lemma non_json_success_body_is_a_failure :
  uploadReply plainTextServer 1 = respond 200 "OK" None /\
  returned (outcome (uploadAttempt ExpoUpload plainTextServer sampleData 1)
              withToken) = false /\
  outcome (uploadAudio ExpoUpload plainTextServer sampleData) withToken
    = Throw (ErrorObj "Ошибка парсинга ответа сервера") /\
  AudioService.success
    (AudioService.uploadRecording
       (Return (AudioService.mkUploadResponse 204 "" false))) = false.
Proof.
  split; [reflexivity|]. split; [reflexivity|].
  split; [vm_compute; reflexivity | reflexivity].
Qed.

(** C5, amended. In [uploadAudio], an attempt that reaches its upload
    request and is answered with a status in [200, 300) returns the parsed
    body when the body is JSON, and fails with a parse error when it is not
    (the failure is retried like any other). In [uploadRecording], an answer
    with status 200 or 201 gives the generic success result whether or not
    the body is JSON, and an answer with any other status gives a failure
    result. *)
Theorem success_status_body_handling :
  (forall (rev : Revision) (w : World) (recordingData : RecordingData)
          (api : ApiService) (attempt : nat)
          (response : Http.Response UploadResult),
     reachesUpload rev w recordingData attempt = true ->
     uploadReply w attempt = Return response ->
     Http.ok response = true ->
     outcome (uploadAttempt rev w recordingData attempt) api =
       match Http.json response with
       | Some result => Return result
       | None =>
           Throw (match rev with
                  | FetchUpload => Http.parseError
                  | ExpoUpload => ErrorObj "Ошибка парсинга ответа сервера"
                  end)
       end) /\
  (forall response : AudioService.UploadResponse,
     ((AudioService.status response = 200 \/
       AudioService.status response = 201)%Z ->
      AudioService.uploadRecording (Return response) =
        AudioService.mkUploadOutcome true "Запись успешно загружена на сервер") /\
     (AudioService.status response <> 200%Z ->
      AudioService.status response <> 201%Z ->
      AudioService.success (AudioService.uploadRecording (Return response))
        = false)).
Proof.
  split.
  - intros rev w recordingData api attempt response Hreach Hreply Hok.
    unfold reachesUpload in Hreach. apply andb_true_iff in Hreach as [Hprobe Huri].
    unfold Http.ok in *.
    destruct rev; simpl uploadAttempt;
      unfold attemptFetch, attemptExpo, healthCheck; unfold_eff; simpl;
      destruct (healthReply w attempt) as [probe|e]; try discriminate;
      unfold Http.ok, Http.parse; rewrite Hprobe; simpl.
    + rewrite Hreply. simpl. rewrite Hok. simpl.
      by destruct (Http.json response).
    + apply andb_true_iff in Huri as [Hne Hfile].
      apply negb_true_iff in Hne. rewrite Hne, Hfile. simpl.
      rewrite Hreply. simpl. rewrite Hok. simpl.
      by destruct (Http.json response).
  - intros [status body json]. unfold AudioService.uploadRecording. simpl.
    split.
    + intros [-> | ->]; simpl; by destruct json.
    + intros H200 H201.
      destruct (Z.eqb_spec status 200); [done|].
      by destruct (Z.eqb_spec status 201).
Qed.

Lemma success_status_body_handling_witness :
  reachesUpload ExpoUpload recovering sampleData 3 = true /\
  outcome (uploadAttempt ExpoUpload recovering sampleData 3) withToken
    = Return stored /\
  AudioService.uploadRecording
    (Return (AudioService.mkUploadResponse 201 "created" false))
    = AudioService.mkUploadOutcome true "Запись успешно загружена на сервер".
Proof.
  split; [reflexivity|]. split.
  - apply (proj1 success_status_body_handling ExpoUpload recovering sampleData
             withToken 3%nat
             (Http.mkResponse 201 "created" (Some stored)));
      reflexivity.
  - apply (proj1 (proj2 success_status_body_handling
                    (AudioService.mkUploadResponse 201 "created" false))).
    by right.
Defined.

End ApiFacts.

(** * Further properties of the modelled code *)

(** ** Local storage of recordings: saving, removing and their failures *)

Section StorageMore.
Import StorageService.

Lemma throughJson_id (r : Recording) : id (throughJson r) = id r.
Proof. by destruct r. Qed.

Lemma throughJson_twice (r : Recording) :
  throughJson (throughJson r) = throughJson r.
Proof. by destruct r as [? ? ? [?|?] [[?|?]|] ? ? ? ?]. Qed.

Lemma stringify_throughJson (rs : list Recording) :
  JSON_stringify (throughJson <$> rs) = JSON_stringify rs.
Proof.
  unfold JSON_stringify. f_equal.
  induction rs as [|r rs IH]; [reflexivity|].
  rewrite !fmap_cons, IH. f_equal.
  by destruct r as [? ? ? [?|?] [[?|?]|] ? ? ? ?].
Qed.

Lemma getRecordings_fixed st :
  throughJson <$> getRecordings st = getRecordings st.
Proof.
  destruct (getRecordings_parsed st) as [rs ->]. apply throughJson_parsed.
Qed.

Lemma filter_throughJson rid (rs : list Recording) :
  filter (fun r => id r <> rid) (throughJson <$> rs)
  = throughJson <$> filter (fun r => id r <> rid) rs.
Proof.
  induction rs as [|r rs IH]; [reflexivity|].
  rewrite fmap_cons, !filter_cons, throughJson_id.
  destruct (decide (id r <> rid)); [|exact IH].
  rewrite fmap_cons. f_equal. exact IH.
Qed.

Lemma saveRecording_working r st :
  failing st = false ->
  items (saveRecording r st)
  = <[RECORDINGS_KEY := JSON_stringify (readable st ++ [r])]> (items st).
Proof. intros Hok. by rewrite saveRecording_eq, !working_rejects. Qed.

Lemma removeRecording_working rid st :
  failing st = false ->
  items (removeRecording rid st)
  = <[RECORDINGS_KEY :=
        JSON_stringify (filter (fun r => id r <> rid) (readable st))]>
      (items st).
Proof. intros Hok. by rewrite removeRecording_eq, !working_rejects. Qed.

(** What is readable once [removeRecording] wrote. *)
Lemma readable_removeRecording rid st :
  rejects 1 st = false ->
  readable (removeRecording rid st)
  = filter (fun r => id r <> rid) (if rejects 0 st then [] else readable st).
Proof.
  intros Hwrite. rewrite removeRecording_eq, Hwrite, readable_written.
  etransitivity; [symmetry; apply filter_throughJson|]. f_equal.
  destruct (rejects 0 st); [reflexivity|apply readable_fixed].
Qed.

Lemma getRecordings_removeRecording rid st :
  failing st = false ->
  getRecordings (removeRecording rid st)
  = filter (fun r => id r <> rid) (getRecordings st).
Proof.
  intros Hok.
  rewrite getRecordings_working by by apply removeRecording_keeps_working.
  rewrite getRecordings_working by done.
  rewrite readable_removeRecording by by apply working_rejects.
  by rewrite working_rejects.
Qed.

(** X1. What [saveRecording] does to the stored list, by the two answers of
    the storage, for a recordings item that is absent, a list written by
    this class, or text that does not parse. When the write is rejected
    nothing changes. When the read
    is answered and the write accepted, the stored list is the earlier one
    (none, if the key was absent or held text that does not parse) with the
    recording added at its end. When the read is rejected and the write
    accepted, the stored list is replaced by a list that holds the new
    recording only: the earlier entries are lost. Items under other keys
    are never touched. *)
Theorem saveRecording_appends_overwrites_or_does_nothing :
  forall (r : Recording) (st : AsyncStorage),
    (rejects 1 st = true -> items (saveRecording r st) = items st) /\
    (rejects 0 st = false -> rejects 1 st = false ->
     storedRecordings (saveRecording r st)
       = Some (default [] (storedRecordings st) ++ [mapTime toJSON r])) /\
    (rejects 0 st = true -> rejects 1 st = false ->
     storedRecordings (saveRecording r st) = Some [mapTime toJSON r]) /\
    (forall key, key <> RECORDINGS_KEY ->
       items (saveRecording r st) !! key = items st !! key).
Proof.
  intros r st. rewrite saveRecording_eq. unfold storedRecordings at 1 3.
  cbn [items]. split; [|split; [|split]].
  - by intros ->.
  - intros -> ->. rewrite lookup_insert_eq. unfold JSON_stringify.
    rewrite fmap_app. do 2 f_equal.
    destruct (storedRecordings st) as [rs|] eqn:Hst.
    + rewrite (readable_stored st rs Hst). apply stringify_parsed.
    + by rewrite readable_unstored.
  - intros -> ->. by rewrite lookup_insert_eq.
  - intros key Hkey. destruct (rejects 1 st); [reflexivity|].
    by rewrite lookup_insert_ne.
Qed.

Lemma saveRecording_appends_overwrites_or_does_nothing_witness :
  rejects 0 refusingRead = true /\ rejects 1 refusingRead = false /\
  storedRecordings refusingRead = Some [mapTime toJSON sampleRecording] /\
  storedRecordings (saveRecording sampleRecording refusingRead)
    = Some [mapTime toJSON sampleRecording].
Proof.
  split; [reflexivity|]. split; [reflexivity|]. split; [reflexivity|].
  apply (proj1 (proj2 (proj2 (saveRecording_appends_overwrites_or_does_nothing
                                sampleRecording refusingRead))));
    reflexivity.
Defined.

(** X2. On a working store whose recordings key is absent or holds text
    that [JSON.parse] rejects (the empty text included), [saveRecording]
    starts a new list holding only the saved recording: the text that was
    under the key is overwritten. *)
Theorem saveRecording_overwrites_unreadable_text :
  forall (r : Recording) (st : AsyncStorage),
    failing st = false ->
    storedRecordings st = None ->
    storedRecordings (saveRecording r st) = Some [mapTime toJSON r] /\
    getRecordings (saveRecording r st) = [throughJson r].
Proof.
  intros r st Hok Hnone.
  assert (Hempty : getRecordings st = [])
    by (rewrite getRecordings_working by done; by apply readable_unstored).
  split.
  - unfold storedRecordings. rewrite saveRecording_working by done.
    rewrite readable_unstored by done. by rewrite lookup_insert_eq.
  - rewrite getRecordings_saveRecording by done. by rewrite Hempty.
Qed.

Lemma saveRecording_overwrites_unreadable_text_witness :
  failing (mkStore {[RECORDINGS_KEY := Unparseable "[{broken"]} []) = false /\
  storedRecordings (mkStore {[RECORDINGS_KEY := Unparseable "[{broken"]} [])
    = None /\
  storedRecordings
    (saveRecording sampleRecording
       (mkStore {[RECORDINGS_KEY := Unparseable "[{broken"]} []))
    = Some [mapTime toJSON sampleRecording].
Proof.
  split; [reflexivity|]. split; [reflexivity|].
  apply (saveRecording_overwrites_unreadable_text sampleRecording
           (mkStore {[RECORDINGS_KEY := Unparseable "[{broken"]} []));
    reflexivity.
Defined.

(** X3. Recordings saved one after the other on a working store are read
    back in the order of the calls, after everything that was readable
    before: the list only grows at its end. *)
Theorem saved_recordings_keep_call_order :
  forall (rs : list Recording) (st : AsyncStorage),
    failing st = false ->
    getRecordings (foldl (fun acc r => saveRecording r acc) st rs)
    = getRecordings st ++ (throughJson <$> rs).
Proof.
  induction rs as [|r rs IH]; intros st Hok; simpl.
  - by rewrite app_nil_r.
  - rewrite IH by by apply saveRecording_keeps_working.
    rewrite getRecordings_saveRecording by done.
    by rewrite <- app_assoc.
Qed.

Lemma saved_recordings_keep_call_order_witness :
  failing emptyStore = false /\
  getRecordings
    (foldl (fun acc r => saveRecording r acc) emptyStore
       [sampleRecording; throughJson sampleRecording])
  = [throughJson sampleRecording; throughJson sampleRecording].
Proof.
  split; [reflexivity|].
  apply (saved_recordings_keep_call_order
           [sampleRecording; throughJson sampleRecording] emptyStore).
  reflexivity.
Defined.

(** X4. When the storage accepts the write of [removeRecording(recordingId)]
    (whether it answered the read of that call or not), no recording that a
    later [getRecordings] returns has that id, whether that later read is
    answered or rejected. *)
Theorem removed_id_is_not_read_back :
  forall (recordingId : string) (st : AsyncStorage) (r : Recording),
    rejects 1 st = false ->
    r ∈ getRecordings (removeRecording recordingId st) ->
    id r <> recordingId.
Proof.
  intros rid st r Hwrite. rewrite getRecordings_eq.
  destruct (rejects 0 (removeRecording rid st));
    [by intros ?%not_elem_of_nil|].
  rewrite readable_removeRecording by done.
  by intros [? _]%list_elem_of_filter.
Qed.

Lemma removed_id_is_not_read_back_witness :
  rejects 1 (saveRecording sampleRecording emptyStore) = false /\
  throughJson sampleRecording
    ∈ getRecordings (removeRecording "other-id"
                       (saveRecording sampleRecording emptyStore)) /\
  id (throughJson sampleRecording) <> "other-id".
Proof.
  assert (Hin : throughJson sampleRecording
                  ∈ getRecordings (removeRecording "other-id"
                                     (saveRecording sampleRecording emptyStore)))
    by (vm_compute; left).
  split; [reflexivity|]. split; [exact Hin|].
  exact (removed_id_is_not_read_back "other-id"
           (saveRecording sampleRecording emptyStore)
           (throughJson sampleRecording) eq_refl Hin).
Defined.

Lemma filter_twice rid (rs : list Recording) :
  filter (fun r => id r <> rid) (filter (fun r => id r <> rid) rs)
  = filter (fun r => id r <> rid) rs.
Proof.
  apply filter_nothing. by intros r [? _]%list_elem_of_filter.
Qed.

(** X5. On a working store [removeRecording] is idempotent: removing the
    same id a second time leaves every item exactly as the first removal
    left it. *)
Theorem removeRecording_twice_is_once :
  forall (recordingId : string) (st : AsyncStorage),
    failing st = false ->
    items (removeRecording recordingId (removeRecording recordingId st))
    = items (removeRecording recordingId st).
Proof.
  intros rid st Hok.
  rewrite (removeRecording_working rid (removeRecording rid st))
    by by apply removeRecording_keeps_working.
  rewrite readable_removeRecording by by apply working_rejects.
  rewrite working_rejects, filter_twice by done.
  rewrite removeRecording_working by done.
  by rewrite insert_insert_eq.
Qed.

Lemma removeRecording_twice_is_once_witness :
  failing (saveRecording sampleRecording emptyStore) = false /\
  items (removeRecording "1749657904000"
           (removeRecording "1749657904000"
              (saveRecording sampleRecording emptyStore)))
  = items (removeRecording "1749657904000"
             (saveRecording sampleRecording emptyStore)).
Proof.
  split; [reflexivity|].
  apply (removeRecording_twice_is_once "1749657904000"
           (saveRecording sampleRecording emptyStore)).
  reflexivity.
Defined.

(** X6. On a working store, saving a recording and then removing its id
    leaves readable exactly the earlier recordings with a different id; so
    when the id was not in use the list is as before the save, and when it
    was, the older recordings with that id are removed as well. *)
Theorem save_then_remove_restores_list :
  forall (r : Recording) (st : AsyncStorage),
    failing st = false ->
    getRecordings (removeRecording (id r) (saveRecording r st))
      = filter (fun x => id x <> id r) (getRecordings st) /\
    ((forall x, x ∈ getRecordings st -> id x <> id r) ->
     getRecordings (removeRecording (id r) (saveRecording r st))
       = getRecordings st).
Proof.
  intros r st Hok.
  assert (Hrun : getRecordings (removeRecording (id r) (saveRecording r st))
                 = filter (fun x => id x <> id r) (getRecordings st)).
  { rewrite getRecordings_removeRecording
      by by apply saveRecording_keeps_working.
    rewrite getRecordings_saveRecording by done.
    rewrite filter_app, filter_cons, throughJson_id.
    destruct (decide (id r <> id r)); [done|].
    by rewrite filter_nil, app_nil_r. }
  split; [exact Hrun|].
  intros Hfresh. rewrite Hrun. by apply filter_nothing.
Qed.

Lemma save_then_remove_restores_list_witness :
  failing emptyStore = false /\
  getRecordings (removeRecording (id sampleRecording)
                   (saveRecording sampleRecording emptyStore))
    = getRecordings emptyStore.
Proof.
  split; [reflexivity|].
  apply (proj2 (save_then_remove_restores_list sampleRecording emptyStore
                  eq_refl)).
  intros x Hx. by apply not_elem_of_nil in Hx.
Defined.

(** X7. A recording that was read from the store survives a further save
    unchanged: saved again and read back, it is equal to itself in every
    field, timestamps included. *)
Theorem read_back_recording_round_trips_exactly :
  forall (r : Recording) (st st' : AsyncStorage),
    r ∈ getRecordings st ->
    failing st' = false ->
    last (getRecordings (saveRecording r st')) = Some r.
Proof.
  intros r st st' Hin Hok.
  rewrite getRecordings_saveRecording by done. rewrite last_snoc. f_equal.
  destruct (getRecordings_parsed st) as [rs Hrs]. rewrite Hrs in Hin.
  apply list_elem_of_fmap in Hin as (j & -> & _).
  unfold throughJson. rewrite (mapTime_mapTime IsoText toJSON).
  f_equal. by apply mapTime_id.
Qed.

Lemma read_back_recording_round_trips_exactly_witness :
  throughJson sampleRecording
    ∈ getRecordings (saveRecording sampleRecording emptyStore) /\
  failing emptyStore = false /\
  last (getRecordings (saveRecording (throughJson sampleRecording) emptyStore))
    = Some (throughJson sampleRecording).
Proof.
  assert (Hin : throughJson sampleRecording
                  ∈ getRecordings (saveRecording sampleRecording emptyStore))
    by (vm_compute; left).
  split; [exact Hin|]. split; [reflexivity|].
  exact (read_back_recording_round_trips_exactly (throughJson sampleRecording)
           (saveRecording sampleRecording emptyStore) emptyStore Hin eq_refl).
Defined.

(** X8. On a working store removals commute: removing two ids in either
    order leaves the same items. *)
Theorem removals_commute :
  forall (a b : string) (st : AsyncStorage),
    failing st = false ->
    items (removeRecording a (removeRecording b st))
    = items (removeRecording b (removeRecording a st)).
Proof.
  intros a b st Hok.
  rewrite (removeRecording_working a (removeRecording b st))
    by by apply removeRecording_keeps_working.
  rewrite (removeRecording_working b (removeRecording a st))
    by by apply removeRecording_keeps_working.
  rewrite !readable_removeRecording by by apply working_rejects.
  rewrite !working_rejects by done.
  rewrite !removeRecording_working by done.
  rewrite !insert_insert_eq. do 2 f_equal.
  rewrite !list_filter_filter. apply list_filter_iff. intros r. tauto.
Qed.

Lemma removals_commute_witness :
  failing (saveRecording sampleRecording emptyStore) = false /\
  items (removeRecording "1749657904000"
           (removeRecording "other-id"
              (saveRecording sampleRecording emptyStore)))
  = items (removeRecording "other-id"
             (removeRecording "1749657904000"
                (saveRecording sampleRecording emptyStore))).
Proof.
  split; [reflexivity|].
  apply (removals_commute "1749657904000" "other-id"
           (saveRecording sampleRecording emptyStore)).
  reflexivity.
Defined.

End StorageMore.

(** ** The recording session: fields, refusals and a full cycle *)

Section AudioMore.
Import AudioService.

Lemma slot_matches_flag calls :
  isRecording (run calls).1 = true <-> is_Some (recording (run calls).1).
Proof.
  unfold run. induction calls as [|c calls IH] using rev_ind.
  - simpl. split; [discriminate | by intros [? ?]].
  - rewrite foldl_app. simpl foldl.
    destruct (foldl step (create, idle) calls) as [svc pf]. simpl in IH.
    destruct c as [env|reply]; simpl step.
    + unfold startRecording, createAsync.
      destruct (isRecording svc) eqn:Hrec, (negb (requestPermissions env)),
        (audioModeReply env), (createReply env); simpl;
        rewrite ?Hrec; try exact IH.
      all: split; [by eauto | done].
    + unfold stopRecording, stopAndUnloadAsync.
      destruct (isRecording svc) eqn:Hrec, (recording svc) eqn:Hslot, reply;
        simpl; rewrite ?Hrec, ?Hslot; try exact IH.
      split; [discriminate | by intros [? ?]].
Qed.

(** X9. After any sequence of [startRecording] and [stopRecording] calls on
    a new service, whatever the platform answers, the flag [isRecording] is
    set exactly when the service holds a recording object, and exactly when
    one platform session is live. *)
Theorem recording_flag_matches_session :
  forall calls : list Call,
    (isRecording (run calls).1 = true <-> is_Some (recording (run calls).1)) /\
    (isRecording (run calls).1 = true <-> length (live (run calls).2) = 1%nat).
Proof.
  intros calls. pose proof (slot_matches_flag calls) as Hslot.
  split; [exact Hslot|].
  rewrite run_sessions. unfold sessionsOf.
  destruct (isRecording (run calls).1) eqn:Hrec.
  - destruct (proj1 Hslot eq_refl) as [rec ->]. by split.
  - split; [discriminate|]. by destruct (recording _).
Qed.



(** X11. A full cycle. From any state reached by earlier calls in which
    nothing is being recorded, a granted [startRecording] followed by a
    [stopRecording] that the platform completes returns the file URI the
    platform gave to the recording, and puts the service back into its
    initial state with no live session; a [stopRecording] whose platform
    call throws returns [null] and changes nothing, so the recording stays
    active. *)
Theorem start_stop_cycle_returns_uri :
  forall (calls : list Call) (env : StartReplies) (uri : option string)
         (e : Js.Thrown),
    isRecording (run calls).1 = false ->
    permissionReply env = Js.Return granted ->
    audioModeReply env = Js.Return tt ->
    createReply env = Js.Return uri ->
    exists svc1 pf1 pf2,
      startRecording env (run calls).1 (run calls).2
        = (Some "recording", svc1, pf1) /\
      stopRecording (Js.Throw e) svc1 pf1 = (None, svc1, pf1) /\
      stopRecording (Js.Return tt) svc1 pf1 = (uri, create, pf2) /\
      live pf2 = [].
Proof.
  intros calls env uri e Hidle Hperm Hmode Hcreate.
  pose proof (run_sessions calls) as Hlive.
  unfold sessionsOf in Hlive. rewrite Hidle in Hlive.
  destruct (run calls) as [svc pf]. simpl in *.
  unfold startRecording, requestPermissions, createAsync.
  rewrite Hidle, Hperm, Hmode, Hcreate. simpl.
  eexists _, _, _. split; [reflexivity|].
  unfold stopRecording, stopAndUnloadAsync. simpl.
  repeat split. rewrite Hlive. simpl. rewrite filter_cons.
  by destruct (decide (created pf <> created pf)).
Qed.

Lemma start_stop_cycle_returns_uri_witness :
  exists svc1 pf1 pf2,
    startRecording permissive (run []).1 (run []).2
      = (Some "recording", svc1, pf1) /\
    stopRecording (Js.Throw (Js.ErrorObj "stop failed")) svc1 pf1
      = (None, svc1, pf1) /\
    stopRecording (Js.Return tt) svc1 pf1
      = (Some "file:///cache/Audio/recording-1.m4a", create, pf2) /\
    live pf2 = [].
Proof.
  apply (start_stop_cycle_returns_uri [] permissive
           (Some "file:///cache/Audio/recording-1.m4a")
           (Js.ErrorObj "stop failed"));
    reflexivity.
Defined.

End AudioMore.

(** ** The upload client with retries: what is sent, and with which token *)

Section ApiMore.
Import Js Eff ApiService.

Ltac run_eff :=
  unfold outcome, final, trace, bind, try, get, put, emit, await, lift,
    throw, ret.

(** With a token the login gate is no step at all. *)
Lemma uploadAudio_with_token rev w recordingData api :
  truthy (token api) = true ->
  uploadAudio rev w recordingData api
  = retryLoop (uploadAttempt rev w recordingData) (seq 1 maxRetries) None api.
Proof.
  intros Htok. unfold uploadAudio.
  set (loop := retryLoop _ _ _). clearbody loop.
  unfold bind, get, ret. rewrite Htok. simpl.
  by destruct (loop api) as [[end_ api2] t2].
Qed.

(** The run of [uploadAudio] with the fields it ends in. *)
Lemma uploadAudio_state rev w recordingData api :
  trace (uploadAudio rev w recordingData) api =
    (if truthy (token api) then [] else [loginRequest rev])
    ++ (if authorized w api
        then trace (retryLoop (uploadAttempt rev w recordingData)
                      (seq 1 maxRetries) None) (afterGate rev w api)
        else []) /\
  final (uploadAudio rev w recordingData) api = afterGate rev w api.
Proof.
  pose proof (uploadAttempt_quiet rev w recordingData) as Hq.
  pose proof (fun a => retryLoop_summary _ Hq (seq 1 maxRetries) None a)
    as Hloop.
  pose proof (implicitLogin_run rev w api) as Hgate.
  unfold uploadAudio, authorized, afterGate.
  set (loop := retryLoop _ _ _) in *. set (gate := implicitLogin rev w) in *.
  clearbody loop gate. unfold outcome, final, trace in *.
  unfold bind, get, ret.
  destruct (truthy (token api)) eqn:Htok; simpl.
  - destruct (Hloop api) as (_ & Hfin & _).
    by destruct (loop api) as [[end_ api2] t2].
  - destruct (Hgate eq_refl) as [Htrace Hend]. revert Htrace Hend.
    destruct (gate api) as [[go api1] t1]. cbn [fst snd]. intros -> Hend.
    destruct (loginGranted w).
    + subst go. destruct (Hloop api1) as (_ & Hfin & _).
      by destruct (loop api1) as [[end_ api2] t2].
    + by destruct Hend as [reason ->].
Qed.

(** A property of single events that every iteration keeps is kept by the
    whole loop, pauses included. *)
Lemma retryLoop_Forall (P : Event -> Prop) body api :
  (forall n, final (body n) api = api) ->
  (forall n, Forall P (trace (body n) api)) ->
  (forall ms, P (Sleep ms)) ->
  forall attempts lastError,
    Forall P (trace (retryLoop body attempts lastError) api).
Proof.
  intros Hfinal Hbody Hsleep.
  induction attempts as [|attempt later IH]; intros lastError.
  - by cbn.
  - specialize (Hfinal attempt). specialize (Hbody attempt).
    revert Hfinal Hbody. unfold final, trace. rewrite retryLoop_cons.
    destruct (body attempt api) as [[[result|error] api1] t1];
      cbn [fst snd]; intros -> Hbody.
    + by rewrite app_nil_r.
    + specialize (IH (Some error)). revert IH. unfold trace.
      destruct (retryLoop body later (Some error) api) as [[end_ api2] t2].
      cbn [snd]. intros IH. apply Forall_app. split; [exact Hbody|].
      apply Forall_app. split; [|exact IH].
      destruct (attempt <? maxRetries)%nat; by repeat constructor.
Qed.

(** Every upload request of an iteration is the one built from the token
    held at that moment. *)
Lemma attempt_carries rev w recordingData api value n :
  default "" (bearer api) = value -> bearer api <> None ->
  Forall (carries value) (trace (uploadAttempt rev w recordingData n) api).
Proof.
  intros Hval Hsome.
  assert (Hb : bearer api = Some value)
    by (destruct (bearer api); [by simplify_eq/= | done]).
  destruct rev; simpl uploadAttempt;
    unfold attemptFetch, attemptExpo, healthCheck; run_eff; simpl.
  - destruct (healthReply w n) as [probe|e]; simpl;
      [|by repeat constructor].
    destruct (negb (Http.ok probe)); simpl; [by repeat constructor|].
    destruct (uploadReply w n) as [response|e]; simpl;
      [|by repeat constructor].
    destruct (negb (Http.ok response)); simpl; [by repeat constructor|].
    destruct (Http.parse response); by repeat constructor.
  - destruct (String.eqb (uri recordingData) ""
              || negb (String.prefix "file://" (uri recordingData)));
      simpl; [by repeat constructor|].
    destruct (healthReply w n) as [probe|e]; simpl;
      [|by repeat constructor].
    destruct (negb (Http.ok probe)); simpl; [by repeat constructor|].
    destruct (uploadReply w n) as [response|e]; simpl;
      [|by repeat constructor].
    destruct ((200 <=? Http.status response)%Z
              && (Http.status response <? 300)%Z); simpl;
      [|by repeat constructor].
    destruct (Http.parse response); by repeat constructor.
Qed.

(** X12. An upload started with a token never changes the token, and every
    upload request it sends, retries included, carries
    [Authorization: Bearer <token>]. *)
Theorem held_token_is_kept_and_sent :
  forall (rev : Revision) (w : World) (recordingData : RecordingData)
         (api : ApiService) (tok : string),
    token api = Some tok -> tok <> "" ->
    final (uploadAudio rev w recordingData) api = api /\
    Forall (carries ("Bearer " +:+ tok))
           (trace (uploadAudio rev w recordingData) api).
Proof.
  intros rev w recordingData api tok Htok Hne.
  assert (Htruthy : truthy (token api) = true).
  { rewrite Htok. simpl. by destruct (String.eqb_spec tok ""). }
  pose proof (uploadAttempt_quiet rev w recordingData) as Hq.
  unfold final, trace. rewrite uploadAudio_with_token by done.
  split.
  - by destruct (retryLoop_summary _ Hq (seq 1 maxRetries) None api)
      as (_ & Hfin & _).
  - apply retryLoop_Forall; [intros n; apply Hq | | done].
    intros n. apply attempt_carries; unfold bearer; rewrite Htruthy, Htok;
      done.
Qed.

Lemma held_token_is_kept_and_sent_witness :
  token withToken = Some "token-1" /\
  final (uploadAudio ExpoUpload rejecting sampleData) withToken = withToken /\
  Forall (carries "Bearer token-1")
         (trace (uploadAudio ExpoUpload rejecting sampleData) withToken).
Proof.
  split; [reflexivity|].
  apply (held_token_is_kept_and_sent ExpoUpload rejecting sampleData withToken
           "token-1"); [reflexivity | discriminate].
Defined.

Lemma implicitLogin_yields rev w api tok :
  truthy (token api) = false -> loginYields w tok ->
  final (implicitLogin rev w) api = {| token := Some tok |} /\
  loginGranted w = true.
Proof.
  intros Htok (response & data & Hreply & Hok & Hjson & Hsucc & Hdata & Hne).
  unfold loginGranted, implicitLogin, login, request, setToken, Http.parse.
  destruct (fallbackCredentials rev) as [username password].
  run_eff. simpl. rewrite Hreply. simpl. rewrite Hok, Hjson. simpl.
  rewrite Hsucc, Hdata. simpl.
  destruct (String.eqb_spec tok ""); [done|]. simpl. by rewrite Hsucc.
Qed.

(** X13. When an upload is started without a token and the implicit login
    is accepted with a token, the client holds that token when
    [uploadAudio] completes, whether the upload succeeded or not (it stays
    logged in as the fallback user), and every upload request of the call
    carries [Authorization: Bearer <that token>]. *)
Theorem implicit_login_token_is_kept_and_sent :
  forall (rev : Revision) (w : World) (recordingData : RecordingData)
         (api : ApiService) (tok : string),
    truthy (token api) = false ->
    loginYields w tok ->
    token (final (uploadAudio rev w recordingData) api) = Some tok /\
    Forall (carries ("Bearer " +:+ tok))
           (trace (uploadAudio rev w recordingData) api).
Proof.
  intros rev w recordingData api tok Htok Hyield.
  destruct (implicitLogin_yields rev w api tok Htok Hyield) as [Hfin Hgranted].
  destruct (uploadAudio_state rev w recordingData api) as [-> ->].
  unfold afterGate, authorized. rewrite Htok, Hfin, Hgranted.
  rewrite orb_true_r. split; [reflexivity|].
  pose proof (uploadAttempt_quiet rev w recordingData) as Hq.
  apply Forall_app. split; [by repeat constructor|].
  assert (Hne : tok <> "") by (by destruct Hyield as (? & ? & ? & ? & ? & ? & ? & ?)).
  apply retryLoop_Forall; [intros n; apply Hq | | done].
  intros n. apply attempt_carries; unfold bearer; simpl;
    by destruct (String.eqb_spec tok "").
Qed.

Lemma welcoming_yields : loginYields welcoming "token-9".
Proof. do 2 eexists. repeat split; [reflexivity.. | discriminate]. Qed.

Lemma implicit_login_token_is_kept_and_sent_witness :
  truthy (token withoutToken) = false /\
  loginYields welcoming "token-9" /\
  token (final (uploadAudio FetchUpload welcoming sampleData) withoutToken)
    = Some "token-9".
Proof.
  split; [reflexivity|]. split; [exact welcoming_yields|].
  apply (implicit_login_token_is_kept_and_sent FetchUpload welcoming sampleData
           withoutToken "token-9" eq_refl welcoming_yields).
Defined.

Lemma retryLoop_Forall_in (P : Event -> Prop) body api :
  (forall ms, P (Sleep ms)) ->
  forall attempts lastError,
    (forall n, n ∈ attempts ->
       final (body n) api = api /\ Forall P (trace (body n) api)) ->
    Forall P (trace (retryLoop body attempts lastError) api).
Proof.
  intros Hsleep.
  induction attempts as [|attempt later IH]; intros lastError Hbody.
  - by cbn.
  - destruct (Hbody attempt ltac:(by left)) as [Hfinal Hthis].
    revert Hfinal Hthis. unfold final, trace. rewrite retryLoop_cons.
    destruct (body attempt api) as [[[result|error] api1] t1];
      cbn [fst snd]; intros -> Hthis.
    + by rewrite app_nil_r.
    + specialize (IH (Some error) (fun n Hn => Hbody n ltac:(by right))).
      revert IH. unfold trace.
      destruct (retryLoop body later (Some error) api) as [[end_ api2] t2].
      cbn [snd]. intros IH. apply Forall_app. split; [exact Hthis|].
      apply Forall_app. split; [|exact IH].
      destruct (attempt <? maxRetries)%nat; by repeat constructor.
Qed.

Lemma three_attempts n : n ∈ seq 1 maxRetries -> (1 <= n <= 3)%nat.
Proof. intros Hn%elem_of_seq. unfold maxRetries in Hn. lia. Qed.

Lemma no_upload_events t :
  Forall (fun e => isUpload e = false) t -> uploadsSent t = 0%nat.
Proof.
  unfold uploadsSent. induction 1 as [|e t He _ IH]; [reflexivity|].
  simpl. by rewrite He.
Qed.

Lemma attempt_without_upload rev w recordingData api n :
  probeFails w n = true ->
  Forall (fun e => isUpload e = false)
         (trace (uploadAttempt rev w recordingData n) api).
Proof.
  unfold probeFails. intros Hprobe.
  destruct rev; simpl uploadAttempt;
    unfold attemptFetch, attemptExpo, healthCheck; run_eff; simpl.
  - destruct (healthReply w n) as [probe|e]; simpl;
      [rewrite Hprobe|]; by repeat constructor.
  - destruct (String.eqb (uri recordingData) ""
              || negb (String.prefix "file://" (uri recordingData)));
      simpl; [by repeat constructor|].
    destruct (healthReply w n) as [probe|e]; simpl;
      [rewrite Hprobe|]; by repeat constructor.
Qed.

(** X14. When the liveness probe of every attempt fails (the request throws
    or is answered with a failure status), [uploadAudio] never sends the
    file: the run holds no upload request at all. *)
Theorem failed_probes_send_no_file :
  forall (rev : Revision) (w : World) (recordingData : RecordingData)
         (api : ApiService),
    (forall n, (1 <= n <= 3)%nat -> probeFails w n = true) ->
    uploadsSent (trace (uploadAudio rev w recordingData) api) = 0%nat.
Proof.
  intros rev w recordingData api Hprobe.
  pose proof (uploadAttempt_quiet rev w recordingData) as Hq.
  destruct (uploadAudio_state rev w recordingData api) as [-> _].
  apply no_upload_events, Forall_app. split.
  - destruct (truthy (token api)); by repeat constructor.
  - destruct (authorized w api); [|constructor].
    apply retryLoop_Forall_in; [done|].
    intros n Hn%three_attempts. split; [apply Hq|].
    by apply attempt_without_upload, Hprobe.
Qed.

Lemma failed_probes_send_no_file_witness :
  (forall n, (1 <= n <= 3)%nat -> probeFails offline n = true) /\
  uploadsSent (trace (uploadAudio FetchUpload offline sampleData) withToken)
    = 0%nat.
Proof.
  split; [by intros n _|].
  apply (failed_probes_send_no_file FetchUpload offline sampleData withToken).
  by intros n _.
Defined.

Lemma attemptExpo_bad_uri w recordingData api n :
  validUri recordingData = false ->
  attemptExpo w recordingData n api =
    (Throw (ErrorObj ("Некорректный URI файла: " +:+ uri recordingData)),
     api, [AttemptStarted n]).
Proof.
  unfold validUri. intros Hbad. unfold attemptExpo. run_eff. simpl.
  assert (String.eqb (uri recordingData) ""
          || negb (String.prefix "file://" (uri recordingData)) = true) as ->.
  { destruct (String.eqb (uri recordingData) ""); [done|].
    simpl in *. by rewrite Hbad. }
  reflexivity.
Qed.

(** X15. In the second revision, a file URI that is empty or does not start
    with [file://] makes every attempt fail before any request: with a
    token held, the whole call consists of the three attempts and the two
    pauses of 2000 and 4000 ms, sends nothing, leaves the token as it was
    and throws the error that names the URI. *)
Theorem invalid_uri_fails_without_any_request :
  forall (w : World) (recordingData : RecordingData) (api : ApiService),
    truthy (token api) = true ->
    validUri recordingData = false ->
    uploadAudio ExpoUpload w recordingData api =
      (Throw (ErrorObj ("Некорректный URI файла: " +:+ uri recordingData)),
       api,
       [AttemptStarted 1; Sleep 2000; AttemptStarted 2; Sleep 4000;
        AttemptStarted 3]).
Proof.
  intros w recordingData api Htok Hbad.
  rewrite uploadAudio_with_token by done.
  change (seq 1 maxRetries) with [1; 2; 3]%nat. simpl uploadAttempt.
  do 3 (rewrite retryLoop_cons, attemptExpo_bad_uri by done; cbv beta iota).
  reflexivity.
Qed.

Lemma invalid_uri_fails_without_any_request_witness :
  truthy (token withToken) = true /\
  validUri badUriData = false /\
  trace (uploadAudio ExpoUpload recovering badUriData) withToken =
    [AttemptStarted 1; Sleep 2000; AttemptStarted 2; Sleep 4000;
     AttemptStarted 3].
Proof.
  split; [reflexivity|]. split; [reflexivity|].
  unfold trace.
  by rewrite (invalid_uri_fails_without_any_request recovering badUriData
                withToken eq_refl eq_refl).
Defined.

(** X16. Whatever happens, a call of [uploadAudio] pauses at most twice,
    first for 2000 ms and then for 4000 ms (6 s in all), and only after a
    failed attempt: when the first attempt succeeds there is no pause. *)
Theorem backoff_is_a_prefix_of_two_pauses :
  forall (rev : Revision) (w : World) (recordingData : RecordingData)
         (api : ApiService),
    (delays (trace (uploadAudio rev w recordingData) api) = [] \/
     delays (trace (uploadAudio rev w recordingData) api) = [2000%Z] \/
     delays (trace (uploadAudio rev w recordingData) api) = [2000; 4000]%Z) /\
    (returned (outcome (uploadAttempt rev w recordingData 1) api) = true ->
     delays (trace (uploadAudio rev w recordingData) api) = []).
Proof.
  intros rev w recordingData api.
  rewrite <- delays_pacing.
  destruct (authorized w api) eqn:Hauth.
  - pose proof (authorized_three rev w recordingData api Hauth) as Hthree.
    destruct (outcome (uploadAttempt rev w recordingData 1) api);
      [|destruct (outcome (uploadAttempt rev w recordingData 2) api)];
      injection Hthree as _ ->; cbn; split; auto; discriminate.
  - unfold authorized in Hauth. apply orb_false_iff in Hauth as [Htok Hno].
    destruct (tokenless_run rev w recordingData api Htok)
      as (rest & -> & _ & Hdenied).
    destruct (Hdenied Hno) as [-> _]. cbn. auto.
Qed.

Lemma backoff_is_a_prefix_of_two_pauses_witness :
  returned (outcome (uploadAttempt ExpoUpload accepting sampleData 1)
              withToken) = true /\
  delays (trace (uploadAudio ExpoUpload accepting sampleData) withToken) = [].
Proof.
  split; [reflexivity|].
  apply (proj2 (backoff_is_a_prefix_of_two_pauses ExpoUpload accepting
                  sampleData withToken)).
  reflexivity.
Defined.

Lemma attempt_rejected rev w recordingData api n :
  reachesUpload rev w recordingData n = true ->
  uploadRejected w n = true ->
  exists e,
    uploadAttempt rev w recordingData n api =
      (Throw e, api,
       [AttemptStarted n; probeRequest; uploadRequest rev api recordingData]).
Proof.
  unfold reachesUpload, uploadRejected. intros [Hprobe Huri]%andb_true_iff Hrej.
  destruct (healthReply w n) as [probe|?] eqn:Hhealth; [|discriminate].
  destruct (uploadReply w n) as [response|?] eqn:Hup; [|discriminate].
  destruct rev; simpl uploadAttempt;
    unfold attemptFetch, attemptExpo, healthCheck, probeRequest, uploadRequest;
    run_eff; simpl; rewrite ?Hhealth; simpl; rewrite ?Hprobe; simpl.
  - rewrite Hup. simpl. rewrite Hrej. simpl. by eexists.
  - apply andb_true_iff in Huri as [Hne Hfile].
    apply negb_true_iff in Hne. rewrite Hne, Hfile. simpl.
    rewrite ?Hhealth. simpl. rewrite ?Hprobe. simpl. rewrite Hup. simpl.
    unfold Http.ok in Hrej. apply negb_true_iff in Hrej. rewrite Hrej.
    simpl. by eexists.
Qed.

(** X17. Retries repeat the request unchanged. With a token held, when
    every attempt gets as far as its upload request and the server answers
    it with a failure status, [uploadAudio] sends the file three times, and
    the three upload requests are identical (same file, same metadata, same
    [Authorization]): nothing distinguishes a retry from the first try. *)
Theorem rejected_upload_is_sent_three_times_unchanged :
  forall (rev : Revision) (w : World) (recordingData : RecordingData)
         (api : ApiService),
    truthy (token api) = true ->
    (forall n, (1 <= n <= 3)%nat ->
       reachesUpload rev w recordingData n = true /\
       uploadRejected w n = true) ->
    List.filter isUpload (trace (uploadAudio rev w recordingData) api)
      = [uploadRequest rev api recordingData;
         uploadRequest rev api recordingData;
         uploadRequest rev api recordingData] /\
    uploadsSent (trace (uploadAudio rev w recordingData) api) = 3%nat.
Proof.
  intros rev w recordingData api Htok Hall.
  assert (Hrun : forall n, (1 <= n <= 3)%nat -> exists e,
            uploadAttempt rev w recordingData n api =
              (Throw e, api,
               [AttemptStarted n; probeRequest;
                uploadRequest rev api recordingData])).
  { intros n Hn. destruct (Hall n Hn). by apply attempt_rejected. }
  destruct (Hrun 1%nat ltac:(lia)) as [e1 H1].
  destruct (Hrun 2%nat ltac:(lia)) as [e2 H2].
  destruct (Hrun 3%nat ltac:(lia)) as [e3 H3].
  assert (Hfilter :
    List.filter isUpload (trace (uploadAudio rev w recordingData) api)
    = [uploadRequest rev api recordingData;
       uploadRequest rev api recordingData;
       uploadRequest rev api recordingData]).
  { unfold trace. rewrite uploadAudio_with_token by done.
    change (seq 1 maxRetries) with [1; 2; 3]%nat.
    rewrite retryLoop_cons, H1. cbv beta iota.
    rewrite retryLoop_cons, H2. cbv beta iota.
    rewrite retryLoop_cons, H3. cbv beta iota.
    by destruct rev. }
  split; [exact Hfilter|]. unfold uploadsSent. by rewrite Hfilter.
Qed.

Lemma rejected_upload_is_sent_three_times_unchanged_witness :
  truthy (token withToken) = true /\
  (forall n, (1 <= n <= 3)%nat ->
     reachesUpload ExpoUpload rejecting sampleData n = true /\
     uploadRejected rejecting n = true) /\
  uploadsSent (trace (uploadAudio ExpoUpload rejecting sampleData) withToken)
    = 3%nat.
Proof.
  split; [reflexivity|]. split; [by intros n _|].
  apply (rejected_upload_is_sent_three_times_unchanged ExpoUpload rejecting
           sampleData withToken eq_refl).
  by intros n _.
Defined.

(** X18. [login] of this client makes exactly one request, with the given
    credentials in its body. It completes with the parsed body exactly when
    the server answers with a success status and a JSON body, and throws in
    every other case (network error, failure status, unparseable body); the
    token changes only when that body has [success] set and a non-empty
    token, and then becomes that token. *)
Theorem login_rethrows_and_guards_token :
  forall (w : World) (username password : string) (api : ApiService),
    trace (login w username password) api
      = [Fetch "POST" (API_BASE_URL +:+ "/api/auth/login") (bearer api)
               (LoginJson username password)] /\
    (forall data, outcome (login w username password) api = Return data <->
       exists response,
         loginReply w = Return response /\ Http.ok response = true /\
         Http.json response = Some data) /\
    (token (final (login w username password) api) <> token api ->
     exists tok, loginYields w tok /\
       token (final (login w username password) api) = Some tok).
Proof.
  intros w username password api.
  unfold login, request, setToken, loginYields, Http.parse. run_eff. simpl.
  destruct (loginReply w) as [response|e]; simpl.
  2:{ repeat split; try done. by intros (? & [=] & _). }
  destruct (Http.ok response) eqn:Hok; simpl.
  2:{ repeat split; try done. intros (? & [= <-] & ? & _). congruence. }
  destruct (Http.json response) as [[granted text tok]|] eqn:Hjson; simpl.
  2:{ repeat split; try done. intros (? & [= <-] & _ & ?). congruence. }
  destruct granted; simpl; [destruct tok as [tok|]; simpl|].
  - destruct (String.eqb_spec tok ""); simpl.
    + repeat split; try done.
      * intros [= <-]. by eexists.
      * intros (? & [= <-] & _ & ?). congruence.
    + repeat split.
      * intros [= <-]. by eexists.
      * intros (? & [= <-] & _ & ?). congruence.
      * intros _. exists tok. split; [|done].
        eexists _, _. by repeat split.
  - repeat split; try done.
    + intros [= <-]. by eexists.
    + intros (? & [= <-] & _ & ?). congruence.
  - repeat split; try done.
    + intros [= <-]. by eexists.
    + intros (? & [= <-] & _ & ?). congruence.
Qed.

Lemma login_rethrows_and_guards_token_witness :
  token (final (login welcoming "admin" "admin123") withoutToken)
    <> token withoutToken /\
  exists tok, loginYields welcoming tok /\
    token (final (login welcoming "admin" "admin123") withoutToken) = Some tok.
Proof.
  assert (Hnew : token (final (login welcoming "admin" "admin123") withoutToken)
                 <> token withoutToken) by discriminate.
  split; [exact Hnew|].
  exact (proj2 (proj2 (login_rethrows_and_guards_token welcoming "admin"
                         "admin123" withoutToken)) Hnew).
Defined.

End ApiMore.

(** ** The client that mirrors its token: persistence, headers, upload *)

Section StoredTokenMore.
Import Js Eff StoredTokenApi.

Ltac run_eff :=
  unfold outcome, final, trace, bind, try, get, put, emit, await, lift,
    throw, ret.

(** [login] either leaves the fields alone or sets the token and starts one
    write of it. *)
Lemma login_final username password reply api :
  final (login username password reply) api = api \/
  exists tok,
    final (login username password reply) api
    = {| authToken := Some tok;
         storage := if writeRejected api then storage api
                    else <["authToken" := tok]> (storage api);
         rejections := drop 1 (rejections api) |}.
Proof.
  unfold login, makeRequest, setAuthToken, Http.parse. run_eff.
  destruct reply as [[st body [[succ usr tok msg]|]]|e]; simpl; auto.
  destruct (negb (Http.ok _)); simpl; auto.
  destruct succ; simpl; auto.
  destruct (truthy tok); simpl; eauto.
Qed.

Lemma getProfile_final reply api : final (getProfile reply) api = api.
Proof.
  unfold getProfile, makeRequest, Http.parse. run_eff.
  destruct reply as [[st body [data|]]|e]; simpl; auto.
  by destruct (negb (Http.ok _)).
Qed.

Lemma writable_next api :
  writable api = true ->
  writeRejected api = false /\
  negb (existsb (fun rejected => rejected) (drop 1 (rejections api))) = true.
Proof.
  unfold writable, writeRejected.
  destruct (rejections api) as [|[] later]; simpl; auto. discriminate.
Qed.

Lemma step_mirrored api c :
  mirrored api -> writable api = true ->
  mirrored (step api c) /\ writable (step api c) = true.
Proof.
  unfold mirrored. intros Hm Hw.
  destruct (writable_next api Hw) as [Hnext Hlater].
  destruct c as [u p reply| |reply|rejected]; simpl step.
  - destruct (login_final u p reply api) as [->|[tok ->]]; [done|].
    unfold writable. simpl. rewrite Hnext.
    by rewrite lookup_insert_eq.
  - unfold logout, clearAuthToken, writable. run_eff. simpl.
    rewrite Hnext. by rewrite lookup_delete_eq.
  - by rewrite getProfile_final.
  - unfold loadAuthToken, writable. run_eff. simpl. by destruct rejected.
Qed.

(** X19. The persisted token follows the token held as long as the storage
    accepts the writes. Starting from a client whose stored [authToken]
    item equals its token, after any sequence of [login], [logout],
    [getProfile] and [loadAuthToken] calls whose writes are all accepted,
    whatever the network answers, the stored item still equals the token
    held; hence a client created anew over the same storage and having
    completed [loadAuthToken] holds the same token as before the restart
    (and none after a logout). A rejected write breaks this: after a
    [logout] whose removal is rejected the client holds no token while the
    stored item is still there, and a client created anew holds that token
    again. *)
Theorem stored_token_mirrors_held_token :
  (forall (calls : list Call) (api : ApiService),
     mirrored api -> writable api = true ->
     mirrored (run calls api) /\
     final (loadAuthToken false) (restarted (run calls api)) = run calls api) /\
  (forall api : ApiService,
     writeRejected api = true ->
     authToken (final logout api) = None /\
     storage (final logout api) = storage api /\
     authToken (final (loadAuthToken false) (restarted (final logout api)))
       = storage api !! "authToken").
Proof.
  split.
  - intros calls api Hm Hw.
    assert (Hrun : mirrored (run calls api)).
    { unfold run. revert api Hm Hw.
      induction calls as [|c calls IH]; intros api Hm Hw; [done|].
      simpl. destruct (step_mirrored api c Hm Hw). by apply IH. }
    split; [exact Hrun|].
    unfold loadAuthToken, restarted. run_eff. simpl.
    unfold mirrored in Hrun. rewrite Hrun. by destruct (run calls api).
  - intros api Hrejected.
    unfold logout, clearAuthToken, loadAuthToken, restarted. run_eff. simpl.
    by rewrite Hrejected.
Qed.

Lemma stored_token_mirrors_held_token_witness :
  (mirrored loggedIn /\ writable loggedIn = true /\
   mirrored (run [CLogout; CLogin "admin" "admin123" granted] loggedIn) /\
   final (loadAuthToken false)
         (restarted (run [CLogout; CLogin "admin" "admin123" granted] loggedIn))
   = run [CLogout; CLogin "admin" "admin123" granted] loggedIn) /\
  (writeRejected loggedInReadOnly = true /\
   authToken (final logout loggedInReadOnly) = None /\
   authToken (final (loadAuthToken false)
                (restarted (final logout loggedInReadOnly)))
     = Some "token-1").
Proof.
  assert (Hm : mirrored loggedIn) by reflexivity.
  split.
  - split; [exact Hm|]. split; [reflexivity|].
    exact (proj1 stored_token_mirrors_held_token
             [CLogout; CLogin "admin" "admin123" granted] loggedIn Hm eq_refl).
  - split; [reflexivity|].
    destruct (proj2 stored_token_mirrors_held_token loggedInReadOnly eq_refl)
      as (Hnone & _ & Hagain).
    split; [exact Hnone | exact Hagain].
Defined.

(** X20. Requests carry the token of the last login. After a [login] that
    the server accepts with a non-empty token, the next [getProfile] sends
    [Authorization: Bearer <that token>]; after [logout] it sends no
    [Authorization] header. In both cases [getProfile] completes with a
    value (it never throws) and leaves token and storage as they were. *)
Theorem requests_carry_the_login_token :
  forall (username password : string)
         (reply next : Outcome (Http.Response LoginResult))
         (api : ApiService) (response : Http.Response LoginResult)
         (data : LoginResult) (tok : string),
    reply = Return response -> Http.ok response = true ->
    Http.json response = Some data ->
    success data = true -> token data = Some tok -> tok <> "" ->
    trace (getProfile next) (final (login username password reply) api)
      = [Fetch "GET" "/api/auth/me" (Some ("Bearer " +:+ tok))] /\
    trace (getProfile next)
          (final logout (final (login username password reply) api))
      = [Fetch "GET" "/api/auth/me" None] /\
    (exists r, outcome (getProfile next)
                 (final (login username password reply) api) = Return r) /\
    final (getProfile next) (final (login username password reply) api)
      = final (login username password reply) api.
Proof.
  intros username password reply next api response data tok
    -> Hok Hjson Hsucc Htok Hne.
  assert (Hlogin : final (login username password (Return response)) api
                   = {| authToken := Some tok;
                        storage := if writeRejected api then storage api
                                   else <["authToken" := tok]> (storage api);
                        rejections := drop 1 (rejections api) |}).
  { unfold login, makeRequest, setAuthToken, Http.parse. run_eff. simpl.
    rewrite Hjson, Hok. simpl. rewrite Hsucc, Htok. simpl.
    by destruct (String.eqb_spec tok ""). }
  rewrite Hlogin. rewrite getProfile_final.
  unfold getProfile, logout, clearAuthToken, makeRequest, Http.parse. run_eff.
  simpl. destruct (String.eqb_spec tok ""); [done|]. simpl.
  destruct next as [[st body [d|]]|e]; simpl;
    try destruct (negb (Http.ok _)); simpl; repeat split; eauto.
Qed.

Lemma requests_carry_the_login_token_witness :
  trace (getProfile networkDown)
        (final (login "admin" "admin123" granted) loggedIn)
    = [Fetch "GET" "/api/auth/me" (Some "Bearer token-2")].
Proof.
  apply (requests_carry_the_login_token "admin" "admin123" granted networkDown
           loggedIn
           {| Http.status := 200; Http.body := "login accepted";
              Http.json := Some {| success := true; user := None;
                                   token := Some "token-2";
                                   message := None |} |}
           {| success := true; user := None; token := Some "token-2";
              message := None |}
           "token-2");
    try reflexivity.
  discriminate.
Defined.

(** X21. [uploadAudio] of this client never throws, never touches token or
    storage, and sends exactly one request, with the form built from its
    argument. Its result is either the server's own JSON answer (success
    status and parseable body) or an object with [success = false] and a
    message; in particular a success status with a body that is not JSON
    gives the failure object. *)
Theorem single_upload_returns_answer_or_failure :
  forall (now : Z) (os : string) (audioData : AudioUploadData)
         (reply : Outcome (Http.Response UploadReply)) (api : ApiService),
    final (uploadAudio now os audioData reply) api = api /\
    (exists authorization,
       trace (uploadAudio now os audioData reply) api
       = [PostForm "/api/recordings/upload" authorization
                   (formOf now os audioData)]) /\
    exists r,
      outcome (uploadAudio now os audioData reply) api = Return r /\
      ((exists response,
          reply = Return response /\ Http.ok response = true /\
          Http.json response = Some r) \/
       (upload_success r = false /\ is_Some (upload_message r) /\
        ~ (exists response data,
             reply = Return response /\ Http.ok response = true /\
             Http.json response = Some data))).
Proof.
  intros now os audioData reply api.
  unfold uploadAudio, Http.parse. run_eff. simpl.
  destruct reply as [[st body [data|]]|e]; simpl.
  - destruct (Http.ok _) eqn:Hok; simpl.
    + repeat split; eauto. eexists. split; [reflexivity|]. left. by eexists.
    + repeat split; eauto. eexists. split; [reflexivity|]. right.
      repeat split; eauto. intros (? & ? & [= <-] & ? & _). congruence.
  - repeat split; eauto. eexists. split; [reflexivity|]. right.
    repeat split; eauto. by intros (? & ? & [= <-] & _ & ?).
  - repeat split; eauto. eexists. split; [reflexivity|]. right.
    repeat split; eauto. by intros (? & ? & [=] & _).
Qed.

(** X22. What [uploadAudio] puts in the form. The file part [audio] and the
    [metadata] field are always sent; [duration_seconds] and [location_id]
    are sent exactly when the number is given and is not zero, and
    [recording_date] exactly when it is a non-empty string. So a recording
    of 0 seconds is uploaded without its duration. *)
Theorem zero_valued_fields_are_not_sent :
  forall (now : Z) (os : string) (audioData : AudioUploadData),
    "audio" ∈ fieldNames (formOf now os audioData) /\
    "metadata" ∈ fieldNames (formOf now os audioData) /\
    ("duration_seconds" ∈ fieldNames (formOf now os audioData) <->
     exists d, duration_seconds audioData = Some d /\ d <> 0%Z) /\
    ("location_id" ∈ fieldNames (formOf now os audioData) <->
     exists l, location_id audioData = Some l /\ l <> 0%Z) /\
    ("recording_date" ∈ fieldNames (formOf now os audioData) <->
     exists t, recording_date audioData = Some t /\ t <> "").
Proof.
  intros now os [u t n d l r]. unfold fieldNames, formOf, given, truthy.
  simpl.
  destruct d as [d|]; [destruct (Z.eqb_spec d 0)|];
    (destruct l as [l|]; [destruct (Z.eqb_spec l 0)|]);
    (destruct r as [r|]; [destruct (String.eqb_spec r "")|]);
    simpl; rewrite ?elem_of_cons, ?elem_of_nil;
    repeat split;
    try (intros _; by eexists);
    try (intros (? & ? & ?); congruence);
    try (intros Hin; decompose [or] Hin; done);
    auto 10.
Qed.

Lemma splitDots_dotFree ext : dotFree ext = true -> splitDots ext = [ext].
Proof.
  induction ext as [|c ext IH]; [done|]. simpl.
  intros [Hc Hrest]%andb_true_iff. apply negb_true_iff in Hc.
  rewrite Hc, IH by done. reflexivity.
Qed.

Lemma splitDots_last base ext :
  dotFree ext = true ->
  exists piece pieces,
    splitDots (base +:+ "." +:+ ext) = (piece :: pieces) ++ [ext].
Proof.
  intros Hext. induction base as [|c base IH].
  - exists "", []. change (splitDots ("" +:+ "." +:+ ext))
      with ("" :: splitDots ext). by rewrite splitDots_dotFree.
  - destruct IH as (piece & pieces & IH).
    change (String c base +:+ "." +:+ ext)
      with (String c (base +:+ "." +:+ ext)).
    simpl splitDots. rewrite IH. simpl.
    destruct (Ascii.eqb c _).
    + by exists "", (piece :: pieces).
    + by exists (String c piece), pieces.
Qed.

(** X23. The extension given to the uploaded file is what follows the last
    dot of the name. A name without any dot is taken whole as the extension
    (the file [recording] is sent as [recording_<time>.recording]); only an
    empty name or a name that ends with a dot falls back to [m4a]. *)
Theorem extension_is_text_after_last_dot :
  (forall base ext : string,
     dotFree ext = true -> ext <> "" ->
     fileExtension (base +:+ "." +:+ ext) = ext) /\
  (forall name : string,
     dotFree name = true -> name <> "" -> fileExtension name = name) /\
  (forall base : string, fileExtension (base +:+ ".") = "m4a") /\
  fileExtension "" = "m4a".
Proof.
  split; [|split; [|split]].
  - intros base ext Hfree Hne. unfold fileExtension.
    destruct (splitDots_last base ext Hfree) as (piece & pieces & ->).
    rewrite last_snoc. simpl. by destruct (String.eqb_spec ext "").
  - intros name Hfree Hne. unfold fileExtension.
    rewrite splitDots_dotFree by done. simpl.
    by destruct (String.eqb_spec name "").
  - intros base. unfold fileExtension.
    destruct (splitDots_last base "" eq_refl) as (piece & pieces & Hsplit).
    change (base +:+ "." +:+ "") with (base +:+ ".") in Hsplit.
    by rewrite Hsplit, last_snoc.
  - reflexivity.
Qed.

Lemma extension_is_text_after_last_dot_witness :
  fileExtension ("recording_admin.2025" +:+ "." +:+ "m4a") = "m4a" /\
  fileExtension "recording" = "recording".
Proof.
  split.
  - apply (proj1 extension_is_text_after_last_dot "recording_admin.2025" "m4a");
      [reflexivity | discriminate].
  - apply (proj1 (proj2 extension_is_text_after_last_dot) "recording");
      [reflexivity | discriminate].
Defined.

End StoredTokenMore.

(** ** The recording screen: what is kept of a finished recording *)

Section ScreenMore.
Import Js Eff AudioFiles.

(** X24. [saveRecordingToDocuments] never throws. It returns the path of
    the copy inside [<documents>recordings/] exactly when every file-system
    call it makes goes through, and the URI it was given otherwise. The
    directory is created only when the file system reports it missing, and
    the only copy ever requested is from the given URI to that path. *)
Theorem saveRecordingToDocuments_returns_copy_or_original :
  forall (documentDirectory : string) (fs : FsReplies)
         (uri filename : string),
    let call := saveRecordingToDocuments documentDirectory fs uri filename in
    let recordingsDir := documentDirectory +:+ "recordings/" in
    outcome call tt
      = Return (if copied fs then recordingsDir +:+ filename else uri) /\
    (MakeDirectory recordingsDir ∈ trace call tt <->
     infoReply fs = Return false) /\
    (forall from to, Copy from to ∈ trace call tt ->
       from = uri /\ to = recordingsDir +:+ filename) /\
    (copied fs = true ->
     Copy uri (recordingsDir +:+ filename) ∈ trace call tt).
Proof.
  intros documentDirectory [[[|]|e] [[]|e1] [[]|e2]] uri filename;
    cbv zeta;
    unfold saveRecordingToDocuments, copied, outcome, trace, bind, try,
      await, ret; simpl;
    (split; [reflexivity|]);
    (split; [split; [intros Hin|intros Heq] | split]);
    rewrite ?elem_of_cons, ?elem_of_nil in *;
    try discriminate; try done;
    try (decompose [or] Hin; done);
    try (intros from to Hin; rewrite ?elem_of_cons, ?elem_of_nil in Hin;
         decompose [or] Hin; try done; by simplify_eq);
    auto 6.
Qed.

Lemma saveRecordingToDocuments_returns_copy_or_original_witness :
  copied roomy = true /\
  Copy "file:///cache/a.m4a" ("file:///data/" +:+ "recordings/" +:+ "a.m4a")
    ∈ trace (saveRecordingToDocuments "file:///data/" roomy
               "file:///cache/a.m4a" "a.m4a") tt.
Proof.
  split; [reflexivity|].
  apply (saveRecordingToDocuments_returns_copy_or_original
           "file:///data/" roomy "file:///cache/a.m4a" "a.m4a").
  reflexivity.
Defined.

(** The path given to the kept record after a failed upload. *)
Lemma saveRecordingToDocuments_outcome documentDirectory fs uri filename :
  outcome (saveRecordingToDocuments documentDirectory fs uri filename) tt
  = Return (if copied fs
            then (documentDirectory +:+ "recordings/") +:+ filename
            else uri).
Proof.
  destruct fs as [[[|]|e] [[]|e1] [[]|e2]]; reflexivity.
Qed.

Lemma uploadRecording_success env :
  AudioService.success (AudioService.uploadRecording
                          (RecordingScreen.uploadReply env))
  = RecordingScreen.accepted env.
Proof.
  unfold RecordingScreen.accepted, AudioService.uploadRecording.
  destruct (RecordingScreen.uploadReply env) as [response|e]; [|reflexivity].
  destruct (_ || _); [|reflexivity]. by destruct (AudioService.json response).
Qed.

(** X25. A finished recording is never lost, and is kept once. When the
    recorder returned a non-empty URI and the start time is set, then on a
    working store [stopRecording] of the screen adds exactly one record at
    the end of the stored list, whatever the upload and the file system
    answer. The record is marked [synced] with a server id and the
    recorder's URI exactly when the upload was answered with status 200 or
    201; otherwise it is marked not synced, has no server id, and its path
    is the copy in the documents directory when the copy went through and
    the recorder's URI when it did not. Without a URI or start time the
    store is left as it was. *)
Theorem finished_recording_is_kept_once :
  forall (env : RecordingScreen.Surroundings) (rec : RecordingScreen.Stopped)
         (st : StorageService.AsyncStorage),
    (RecordingScreen.complete rec = false ->
     RecordingScreen.stopRecording env rec st = st) /\
    (RecordingScreen.complete rec = true ->
     StorageService.failing st = false ->
     exists (r : StorageService.Recording) (uri : string),
       StorageService.getRecordings (RecordingScreen.stopRecording env rec st)
         = StorageService.getRecordings st ++ [r] /\
       RecordingScreen.uri rec = Some uri /\
       StorageService.id r = showZ (RecordingScreen.idNow env) /\
       StorageService.duration r = RecordingScreen.duration rec /\
       StorageService.synced r = Some (RecordingScreen.accepted env) /\
       StorageService.serverId r
         = (if RecordingScreen.accepted env
            then Some (RecordingScreen.serverIdNow env) else None) /\
       StorageService.audioFilePath r
         = (if RecordingScreen.accepted env then uri
            else if copied (RecordingScreen.fs env)
                 then (RecordingScreen.documentDirectory env
                       +:+ "recordings/")
                      +:+ RecordingScreen.filenameOf env rec
                 else uri)).
Proof.
  intros env rec st. unfold RecordingScreen.stopRecording,
    RecordingScreen.complete, RecordingScreen.recordOf.
  destruct (RecordingScreen.uri rec) as [uri|]; [|by split].
  destruct (RecordingScreen.recordingStartTime rec) as [startTime|];
    [|by split].
  destruct (String.eqb uri ""); [by split|].
  rewrite uploadRecording_success, saveRecordingToDocuments_outcome.
  split; [done|]. intros _ Hok.
  destruct (RecordingScreen.accepted env);
    rewrite getRecordings_saveRecording by done;
    eexists _, uri; (split; [reflexivity|]); by repeat split.
Qed.

Lemma finished_recording_is_kept_once_witness :
  exists (r : StorageService.Recording) (uri : string),
    StorageService.getRecordings
      (RecordingScreen.stopRecording RecordingScreen.cutOff
         RecordingScreen.fourSeconds StorageService.emptyStore)
      = StorageService.getRecordings StorageService.emptyStore ++ [r] /\
    RecordingScreen.uri RecordingScreen.fourSeconds = Some uri /\
    StorageService.id r = showZ (RecordingScreen.idNow RecordingScreen.cutOff) /\
    StorageService.duration r
      = RecordingScreen.duration RecordingScreen.fourSeconds /\
    StorageService.synced r
      = Some (RecordingScreen.accepted RecordingScreen.cutOff) /\
    StorageService.serverId r
      = (if RecordingScreen.accepted RecordingScreen.cutOff
         then Some (RecordingScreen.serverIdNow RecordingScreen.cutOff)
         else None) /\
    StorageService.audioFilePath r
      = (if RecordingScreen.accepted RecordingScreen.cutOff then uri
         else if copied (RecordingScreen.fs RecordingScreen.cutOff)
              then (RecordingScreen.documentDirectory RecordingScreen.cutOff
                    +:+ "recordings/")
                   +:+ RecordingScreen.filenameOf RecordingScreen.cutOff
                         RecordingScreen.fourSeconds
              else uri).
Proof.
  apply (proj2 (finished_recording_is_kept_once RecordingScreen.cutOff
                  RecordingScreen.fourSeconds StorageService.emptyStore));
    reflexivity.
Defined.

Lemma padStart_two_digits (n : nat) :
  (n < 100)%nat ->
  RecordingScreen.padStart 2 (showZ (Z.of_nat n))
  = showZ (Z.of_nat n / 10) +:+ showZ (Z.of_nat n mod 10).
Proof.
  intros Hn.
  do 100 (destruct n as [|n]; [vm_compute; reflexivity|]). lia.
Qed.

Lemma padStart_below_hundred (n : Z) :
  (0 <= n < 100)%Z ->
  RecordingScreen.padStart 2 (showZ n)
  = showZ (n / 10) +:+ showZ (n mod 10).
Proof.
  intros Hn. rewrite <- (Z2Nat.id n) by lia.
  apply padStart_two_digits. lia.
Qed.

(** X26. How a duration is shown. For a whole number of milliseconds that
    is not negative, [formatDuration] of the list screen shows the whole
    minutes (however many) and the remaining whole seconds, which are
    below 60 and always written with two digits; partial seconds are
    dropped, never rounded up. [getRecordingDuration] of the recording
    screen shows the same with the minutes on two digits as well, as long as
    the recording is shorter than 100 minutes. *)
Theorem duration_is_shown_as_minutes_and_two_digit_seconds :
  forall durationMs : Z,
    (0 <= durationMs)%Z ->
    let minutes := (durationMs / 60000)%Z in
    let seconds := (durationMs mod 60000 / 1000)%Z in
    (0 <= seconds < 60)%Z /\
    (60000 * minutes + 1000 * seconds <= durationMs
     < 60000 * minutes + 1000 * seconds + 1000)%Z /\
    RecordingsListScreen.formatDuration durationMs
      = showZ minutes +:+ ":"
        +:+ showZ (seconds / 10) +:+ showZ (seconds mod 10) /\
    ((durationMs < 6000000)%Z ->
     RecordingScreen.elapsedText durationMs
       = (showZ (minutes / 10) +:+ showZ (minutes mod 10)) +:+ ":"
         +:+ showZ (seconds / 10) +:+ showZ (seconds mod 10)).
Proof.
  intros d Hd minutes seconds.
  assert (Hrem : Z.rem d 60000 = (d mod 60000)%Z)
    by (apply Z.rem_mod_nonneg; lia).
  assert (Hm : (0 <= d mod 60000 < 60000)%Z)
    by (apply Z.mod_pos_bound; lia).
  assert (Hs : (0 <= seconds < 60)%Z).
  { subst seconds. split; [apply Z.div_pos; lia|].
    apply Z.div_lt_upper_bound; lia. }
  assert (Hsplit : (d = 60000 * minutes + d mod 60000)%Z)
    by (subst minutes; apply Z.div_mod; lia).
  assert (Hsplit' : (d mod 60000
                     = 1000 * seconds + (d mod 60000) mod 1000)%Z)
    by (subst seconds; apply Z.div_mod; lia).
  assert (Hr : (0 <= (d mod 60000) mod 1000 < 1000)%Z)
    by (apply Z.mod_pos_bound; lia).
  split; [exact Hs|]. split; [lia|].
  unfold RecordingsListScreen.formatDuration, RecordingScreen.elapsedText.
  cbv zeta. rewrite Hrem. fold minutes seconds.
  rewrite (padStart_below_hundred seconds) by lia.
  split; [reflexivity|]. intros Hshort.
  rewrite (padStart_below_hundred minutes); [reflexivity|].
  subst minutes. split; [apply Z.div_pos; lia|].
  apply Z.div_lt_upper_bound; lia.
Qed.

Lemma duration_is_shown_as_minutes_and_two_digit_seconds_witness :
  RecordingsListScreen.formatDuration 65999 = "1:05" /\
  RecordingScreen.elapsedText 65999 = "01:05".
Proof.
  assert (H0 : (0 <= 65999)%Z) by lia.
  destruct (duration_is_shown_as_minutes_and_two_digit_seconds 65999 H0)
    as (_ & _ & Hlist & Hscreen).
  split; [exact Hlist|]. apply Hscreen. lia.
Defined.

Lemma shown_filter rid
    (shown : list RecordingsListScreen.RecordingWithTranscription) :
  RecordingsListScreen.recording
    <$> filter (fun r => StorageService.id (RecordingsListScreen.recording r)
                         <> rid) shown
  = filter (fun r => StorageService.id r <> rid)
           (RecordingsListScreen.recording <$> shown).
Proof.
  induction shown as [|r shown IH]; [reflexivity|].
  rewrite fmap_cons, !filter_cons.
  destruct (decide (StorageService.id (RecordingsListScreen.recording r)
                    <> rid)); [|exact IH].
  rewrite fmap_cons. f_equal. exact IH.
Qed.

Lemma deletions_keep_list_and_storage_together st targets :
  StorageService.failing st = false ->
  let scr := foldl (fun acc target =>
                      RecordingsListScreen.handleDeleteRecording target acc)
                   (RecordingsListScreen.loadRecordings st) targets in
  StorageService.failing scr.2 = false /\
  RecordingsListScreen.recording <$> scr.1 = StorageService.getRecordings scr.2.
Proof.
  intros Hok. cbv zeta.
  induction targets as [|target targets IH] using rev_ind.
  - unfold RecordingsListScreen.loadRecordings.
    rewrite readRecordings_eq, working_rejects by done. simpl.
    split; [by apply working_answer|].
    rewrite getRecordings_working by by apply working_answer.
    rewrite (readable_items (StorageService.answer st).2 st)
      by apply answer_items.
    induction (StorageService.readable st) as [|r rs IHrs];
      [reflexivity|]. rewrite !fmap_cons. f_equal. exact IHrs.
  - rewrite foldl_app. simpl foldl.
    destruct IH as [Hworking Hsame].
    unfold RecordingsListScreen.handleDeleteRecording at 1 3. simpl.
    split; [by apply removeRecording_keeps_working|].
    rewrite getRecordings_removeRecording by done.
    rewrite shown_filter. f_equal. exact Hsame.
Qed.

(** X29. The list on the recordings screen follows the storage. After
    [loadRecordings] on a working store and any number of confirmed
    deletions, the records shown are exactly the records that
    [StorageService.getRecordings] returns at that moment, in the same
    order, and no shown record has the id of a deleted one. *)
Theorem shown_list_follows_storage :
  forall (st : StorageService.AsyncStorage)
         (targets : list StorageService.Recording),
    StorageService.failing st = false ->
    let scr := foldl (fun acc target =>
                        RecordingsListScreen.handleDeleteRecording target acc)
                     (RecordingsListScreen.loadRecordings st) targets in
    RecordingsListScreen.recording <$> scr.1
      = StorageService.getRecordings scr.2 /\
    (forall target r,
       target ∈ targets -> r ∈ scr.1 ->
       StorageService.id (RecordingsListScreen.recording r)
       <> StorageService.id target).
Proof.
  intros st targets Hok. cbv zeta.
  split; [by apply deletions_keep_list_and_storage_together|].
  induction targets as [|last targets IH] using rev_ind.
  - intros target r Hin. by apply elem_of_nil in Hin.
  - intros target r Hin. rewrite foldl_app. simpl foldl.
    unfold RecordingsListScreen.handleDeleteRecording at 1. simpl.
    intros [Hid Hr]%list_elem_of_filter.
    apply elem_of_app in Hin as [Hin|Hin].
    + by apply IH.
    + apply list_elem_of_singleton in Hin. by subst.
Qed.

Lemma shown_list_follows_storage_witness :
  RecordingsListScreen.recording
    <$> (foldl (fun acc target =>
                  RecordingsListScreen.handleDeleteRecording target acc)
               (RecordingsListScreen.loadRecordings
                  (StorageService.saveRecording StorageService.sampleRecording
                     StorageService.emptyStore))
               [StorageService.sampleRecording]).1
  = StorageService.getRecordings
      (foldl (fun acc target =>
                RecordingsListScreen.handleDeleteRecording target acc)
             (RecordingsListScreen.loadRecordings
                (StorageService.saveRecording StorageService.sampleRecording
                   StorageService.emptyStore))
             [StorageService.sampleRecording]).2.
Proof.
  apply (shown_list_follows_storage
           (StorageService.saveRecording StorageService.sampleRecording
              StorageService.emptyStore)
           [StorageService.sampleRecording]).
  reflexivity.
Defined.

End ScreenMore.

(** ** Local storage of the user and the selected location *)

Section UserStorageMore.
Import UserStorage.

Lemma readJson_write key item st :
  failing st = false -> unreadable st = false ->
  readJson key (write key item st)
  = match item with Unparseable _ => None | _ => Some item end.
Proof.
  intros Hok Hread. unfold readJson, write. rewrite Hok. simpl.
  by rewrite Hread, lookup_insert_eq.
Qed.

Lemma write_other key other item st :
  key <> other -> items (write other item st) !! key = items st !! key.
Proof.
  intros Hne. unfold write. destruct (failing st); [reflexivity|]. simpl.
  by rewrite lookup_insert_ne.
Qed.

Lemma remove_other key other st :
  key <> other -> items (remove other st) !! key = items st !! key.
Proof.
  intros Hne. unfold remove. destruct (failing st); [reflexivity|]. simpl.
  by rewrite lookup_delete_ne.
Qed.

Lemma readJson_remove key st :
  failing st = false -> readJson key (remove key st) = None.
Proof.
  intros Hok. unfold readJson, remove. rewrite Hok. simpl.
  destruct (unreadable st); [reflexivity|]. by rewrite lookup_delete_eq.
Qed.

(** X27. User and selected location are kept apart and read back as they
    were saved. When the storage accepts the write and answers the read,
    [getUser] after [saveUser(user)] returns a value equal to [user], and
    [getSelectedLocation] after [saveSelectedLocation(location)] one equal
    to [location]. Saving or removing the one never changes the stored item
    of the other. When the storage accepts the removal, [getUser] after
    [removeUser] returns [null], whether its read is answered or not; when
    the removal or the write is rejected, the rejection is swallowed and
    [getUser] returns what it returned before: after a rejected
    [removeUser] the user is still there. *)
Theorem user_and_location_read_back_as_saved :
  forall (user : User) (location : Location) (st : AsyncStorage),
    (failing st = false -> unreadable st = false ->
     getUser (saveUser user st) = Some (UserJson user) /\
     getSelectedLocation (saveSelectedLocation location st)
       = Some (LocationJson location)) /\
    (items (saveSelectedLocation location st) !! StorageService.USER_KEY
       = items st !! StorageService.USER_KEY /\
     items (saveUser user st) !! StorageService.LOCATION_KEY
       = items st !! StorageService.LOCATION_KEY /\
     items (removeUser st) !! StorageService.LOCATION_KEY
       = items st !! StorageService.LOCATION_KEY) /\
    (failing st = false -> getUser (removeUser st) = None) /\
    (failing st = true ->
     getUser (removeUser st) = getUser st /\
     getUser (saveUser user st) = getUser st).
Proof.
  intros user location st.
  unfold getUser, saveUser, getSelectedLocation, saveSelectedLocation,
    removeUser.
  split; [intros Hok Hread; by rewrite !readJson_write|].
  split; [split; [by apply write_other|
                  split; [by apply write_other|by apply remove_other]]|].
  split; [apply readJson_remove|].
  intros Hf. unfold remove, write. by rewrite Hf.
Qed.

Lemma user_and_location_read_back_as_saved_witness :
  (getUser (saveUser seller blank) = Some (UserJson seller) /\
   getSelectedLocation (saveSelectedLocation centre blank)
     = Some (LocationJson centre)) /\
  (failing readOnly = true /\
   getUser (removeUser readOnly) = Some (UserJson seller)).
Proof.
  split.
  - apply (proj1 (user_and_location_read_back_as_saved seller centre blank));
      reflexivity.
  - split; [reflexivity|].
    apply (proj1 (proj2 (proj2 (proj2 (user_and_location_read_back_as_saved
                                         seller centre readOnly))) eq_refl)).
Defined.

(** X28. [clearAllData] forgets the user, the selected location and the
    recordings, and nothing else: on a working store the three keys are
    absent afterwards and every other item, the [authToken] that the API
    client persists among them, is left as it was. When the storage
    rejects the call nothing is removed. *)
Theorem clearAllData_removes_three_keys_only :
  forall st : AsyncStorage,
    (failing st = false ->
     getUser (clearAllData st) = None /\
     getSelectedLocation (clearAllData st) = None /\
     items (clearAllData st) !! StorageService.RECORDINGS_KEY = None /\
     (forall key : string,
        key <> StorageService.USER_KEY ->
        key <> StorageService.LOCATION_KEY ->
        key <> StorageService.RECORDINGS_KEY ->
        items (clearAllData st) !! key = items st !! key) /\
     items (clearAllData st) !! "authToken" = items st !! "authToken") /\
    (failing st = true -> clearAllData st = st).
Proof.
  intros st. unfold clearAllData, getUser, getSelectedLocation, readJson.
  split; intros Hf; rewrite Hf; [|reflexivity]. simpl.
  assert (Hother : forall key : string,
             key <> StorageService.USER_KEY ->
             key <> StorageService.LOCATION_KEY ->
             key <> StorageService.RECORDINGS_KEY ->
             delete StorageService.RECORDINGS_KEY
               (delete StorageService.LOCATION_KEY
                  (delete StorageService.USER_KEY (items st))) !! key
             = items st !! key).
  { intros key H1 H2 H3. by rewrite !lookup_delete_ne. }
  split; [|split; [|split; [|split]]].
  - destruct (unreadable st); [reflexivity|].
    rewrite lookup_delete_ne, lookup_delete_ne by done.
    by rewrite lookup_delete_eq.
  - destruct (unreadable st); [reflexivity|].
    rewrite lookup_delete_ne by done. by rewrite lookup_delete_eq.
  - by rewrite lookup_delete_eq.
  - exact Hother.
  - by apply Hother.
Qed.

Lemma clearAllData_removes_three_keys_only_witness :
  getUser (clearAllData (saveUser seller blank)) = None /\
  getSelectedLocation (clearAllData (saveUser seller blank)) = None.
Proof.
  destruct (proj1 (clearAllData_removes_three_keys_only
                     (saveUser seller blank)) eq_refl)
    as (Huser & Hlocation & _).
  split; [exact Huser | exact Hlocation].
Defined.

End UserStorageMore.
